(** * AG2D: a shallow embedding of the 2D engine's timing and viewport core

    The development follows the JavaScript sources:

    - [src/js/index.js]           the engine ([Module Index]);
    - [src/js/modules/ag2d.js]    the earlier, smaller engine ([Module Ag2d]);
    - [src/js/models/Animation.js] the animation schema ([Module Animation]).

    Numbers.  A JavaScript number is modelled by [number]: a rational, one
    of the two infinities, or NaN.  The operations [nsub], [nmul], [ndiv]
    and [nmod] are exact on the finite part (no rounding to 53 bits; the
    rounding operations come next) and the two zeros of a double are
    identified (a zero divisor counts as +0).  Everything else follows ECMAScript:
    division by zero gives an infinity or NaN, [%] truncates towards zero
    and takes the sign of the dividend, [Math.round] rounds halves up, a
    comparison with NaN is false, and [0] and [NaN] are falsy.

    Binary64.  In the viewport fit of index.js a product or a quotient
    goes through [Math.floor] or [Math.round], and the rounding of the
    double decides the integer.  There the operations are [fmul] and
    [fdiv]: the exact result rounded to the nearest binary64 value, ties
    to even, with subnormals and overflow to infinity ([round64]); the
    scale [draw] gives the context is such a product too.  Time stamps,
    the interval and the sizes of modules/ag2d.js, which does not fit,
    keep the exact operations.

    Effects.  Methods are computations in [Js S]: they thread the object
    [this : S], may end in a [js_error], and write the calls they make to
    the outside (user hooks, the 2D context, the window) to a trace.  The
    clock is an input: a method takes the successive values returned by
    [window.performance.now()] during its run.  The user hooks
    ([options.init], [options.update], [options.draw]) and the modules
    the engine creates are outside the sources; the hooks are taken to
    be present, a call to one of them is an entry of the trace, it
    returns and leaves the engine object as it is.  The host calls [renderLoop] once per animation frame; [run] is
    that succession of calls. *)

From Stdlib Require Import QArith Qround Qminmax Qpower ZArith Lia Lqa String List Bool.
From stdpp Require Import gmap strings.
Import ListNotations.

Local Open Scope Q_scope.

(** ** Numbers *)

Inductive number : Type :=
| NaN
| NegInfinity
| Fin (q : Q)
| Infinity.

(** Truncation towards zero, as in the definition of [%]. *)
Definition Qtrunc (q : Q) : Z :=
  if Qle_bool 0 q then Qfloor q else Qceiling q.

(** The infinity carrying the sign of a non-zero rational. *)
Definition inf_of_sign (q : Q) : number :=
  if Qle_bool 0 q then Infinity else NegInfinity.

Definition nopp (a : number) : number :=
  match a with
  | NaN => NaN
  | NegInfinity => Infinity
  | Fin x => Fin (- x)
  | Infinity => NegInfinity
  end.

Definition nsub (a b : number) : number :=
  match a, b with
  | NaN, _ | _, NaN => NaN
  | Fin x, Fin y => Fin (x - y)
  | Fin _, Infinity => NegInfinity
  | Fin _, NegInfinity => Infinity
  | Infinity, Infinity => NaN
  | Infinity, _ => Infinity
  | NegInfinity, NegInfinity => NaN
  | NegInfinity, _ => NegInfinity
  end.

Definition nmul (a b : number) : number :=
  match a, b with
  | NaN, _ | _, NaN => NaN
  | Fin x, Fin y => Fin (x * y)
  | Fin x, Infinity | Infinity, Fin x =>
      if Qeq_bool x 0 then NaN else inf_of_sign x
  | Fin x, NegInfinity | NegInfinity, Fin x =>
      if Qeq_bool x 0 then NaN else nopp (inf_of_sign x)
  | Infinity, Infinity | NegInfinity, NegInfinity => Infinity
  | Infinity, NegInfinity | NegInfinity, Infinity => NegInfinity
  end.

Definition ndiv (a b : number) : number :=
  match a, b with
  | NaN, _ | _, NaN => NaN
  | Fin x, Fin y =>
      if Qeq_bool y 0
      then (if Qeq_bool x 0 then NaN else inf_of_sign x)
      else Fin (x / y)
  | Fin _, (Infinity | NegInfinity) => Fin 0
  | Infinity, Fin y => inf_of_sign y
  | NegInfinity, Fin y => nopp (inf_of_sign y)
  | (Infinity | NegInfinity), (Infinity | NegInfinity) => NaN
  end.

(** [a % b] *)
Definition nmod (a b : number) : number :=
  match a, b with
  | Fin x, Fin y =>
      if Qeq_bool y 0 then NaN else Fin (x - y * inject_Z (Qtrunc (x / y)))
  | Fin x, (Infinity | NegInfinity) => Fin x
  | _, _ => NaN
  end.

(** [a > b] *)
Definition ngt (a b : number) : bool :=
  match a, b with
  | NaN, _ | _, NaN => false
  | Fin x, Fin y => negb (Qle_bool x y)
  | Infinity, Infinity => false
  | Infinity, _ => true
  | _, NegInfinity => match a with NegInfinity => false | _ => true end
  | _, _ => false
  end.

Definition Math_floor (a : number) : number :=
  match a with
  | Fin x => Fin (inject_Z (Qfloor x))
  | _ => a
  end.

(** Rounding to the nearest integer, halves towards plus infinity. *)
Definition Qround_half_up (x : Q) : Z := Qfloor (x + (1 # 2)).

Definition Math_round (a : number) : number :=
  match a with
  | Fin x => Fin (inject_Z (Qround_half_up x))
  | _ => a
  end.

(** ToBoolean on a number. *)
Definition truthy (a : number) : bool :=
  match a with
  | NaN => false
  | Fin x => negb (Qeq_bool x 0)
  | _ => true
  end.

(** [x || d] where [x] is a property that may be missing. *)
Definition number_or (x : option number) (d : number) : number :=
  match x with
  | Some a => if truthy a then a else d
  | None => d
  end.

Definition bool_or (x : option bool) (d : bool) : bool :=
  match x with
  | Some true => true
  | _ => d
  end.

Definition string_or (x : option string) (d : string) : string :=
  match x with
  | Some s => if String.eqb s EmptyString then d else s
  | None => d
  end.

Definition object_or {A : Type} (x : option A) (d : A) : A :=
  match x with
  | Some a => a
  | None => d
  end.

(** Equality of numbers up to the representation of the rational.  NaN is
    related to itself: the relation compares stored values, it is not the
    operator [===]. *)
Definition num_eq (a b : number) : Prop :=
  match a, b with
  | Fin x, Fin y => x == y
  | NaN, NaN | Infinity, Infinity | NegInfinity, NegInfinity => True
  | _, _ => False
  end.

Infix "=n=" := num_eq (at level 70, no associativity).

(** ** Binary64 *)

(** The whole part of the binary logarithm of a positive rational. *)
Definition ilog2 (q : Q) : Z :=
  let l := (Z.log2 (Qnum q) - Z.log2 (Z.pos (Qden q)))%Z in
  if Qle_bool (2 ^ l) q then l else (l - 1)%Z.

(** The exponent of the last bit of the double nearest to [q]: 53
    significant bits, and no exponent below that of the subnormals. *)
Definition expo (q : Q) : Z := Z.max (ilog2 q - 52) (-1074).

(** Rounding to the nearest integer, ties to even. *)
Definition rnd_even (x : Q) : Z :=
  let f := Qfloor x in
  match Qcompare (x - inject_Z f) (1 # 2) with
  | Lt => f
  | Gt => (f + 1)%Z
  | Eq => if Z.even f then f else (f + 1)%Z
  end.

(** A positive rational rounded to 53 bits. *)
Definition round_pos (q : Q) : Q :=
  inject_Z (rnd_even (q / 2 ^ expo q)) * 2 ^ expo q.

(** Overflow: a rounded magnitude of 2^1024 or more is infinite. *)
Definition clamp (r : Q) : number :=
  if Qle_bool (2 ^ 1024) r then Infinity else Fin (Qred r).

(** The binary64 value nearest to a rational. *)
Definition round64 (q : Q) : number :=
  match Qcompare (Qred q) 0 with
  | Eq => Fin 0
  | Gt => clamp (round_pos (Qred q))
  | Lt => nopp (clamp (round_pos (- Qred q)))
  end.

Definition to_double (a : number) : number :=
  match a with
  | Fin q => round64 q
  | _ => a
  end.

(** [a * b] and [a / b] on doubles: the exact result, rounded. *)
Definition fmul (a b : number) : number := to_double (nmul a b).
Definition fdiv (a b : number) : number := to_double (ndiv a b).

(** A rational that is a binary64 value. *)
Definition double (q : Q) : Prop := round64 q =n= Fin q.

(** The order of numbers; NaN is not ordered. *)
Definition nle (a b : number) : Prop :=
  match a, b with
  | NaN, _ | _, NaN => False
  | NegInfinity, _ => True
  | _, Infinity => True
  | Fin x, Fin y => x <= y
  | _, _ => False
  end.

(** ** Errors, the trace and the method monad *)

(** [TypeError] is the only error the engine code can raise by itself
    (a property read on [undefined]).  [InvalidConfiguration] and
    [InvalidViewport] are the error kinds the specification names. *)
Inductive js_error : Type :=
| TypeError
| InvalidConfiguration
| InvalidViewport.

(** Calls that leave the engine object. *)
Inductive event : Type :=
| RequestAnimationFrame
| AnimatorUpdate (deltaTime : number)
| OptionsUpdate (deltaTime : number)
| OptionsInit
| OptionsDraw
| ContextSave
| ContextScale (x y : number)
| ContextClearRect (x y w h : number)
| ContextFillStyle (colour : string)
| ContextFillRect (x y w h : number)
| ContextRestore
| AddEventListener (type : string)
| AddAssets
| LoadAssets.

Definition Js (S A : Type) : Type := S -> js_error + (A * S * list event).

Definition ret {S A} (a : A) : Js S A := fun s => inr (a, s, []).

Definition bind {S A B} (m : Js S A) (k : A -> Js S B) : Js S B :=
  fun s =>
    match m s with
    | inl e => inl e
    | inr (a, s1, t1) =>
        match k a s1 with
        | inl e => inl e
        | inr (b, s2, t2) => inr (b, s2, t1 ++ t2)
        end
    end.

Definition get {S} : Js S S := fun s => inr (s, s, []).
Definition modify {S} (f : S -> S) : Js S unit := fun s => inr (tt, f s, []).
Definition emit {S} (ev : event) : Js S unit := fun s => inr (tt, s, [ev]).

Declare Scope js_scope.
Delimit Scope js_scope with js.
Notation "'let!' x ':=' m 'in' k" := (bind m (fun x => k))
  (at level 10, x name, m at level 100, k at level 200) : js_scope.
Notation "m '>>;' k" := (bind m (fun _ => k))
  (at level 100, k at level 200, right associativity) : js_scope.

(** [returns R m]: from every object the method [m] returns normally, and
    the object before and the object after are related by [R]. *)
Definition returns {S A} (R : S -> S -> Prop) (m : Js S A) : Prop :=
  forall s, exists a s' tr, m s = inr (a, s', tr) /\ R s s'.

(** ** The host: canvas element and window *)

Record Size : Type := { width : number; height : number }.

(** A CSS length as the code writes it: [n + 'px'], or never written. *)
Inductive css_length : Type :=
| css_unset
| px (n : number).

(** The canvas element: its [height] and [width] attributes (the backing
    store) and its inline style. *)
Record Canvas : Type := {
  attr_height : number;
  attr_width : number;
  style_height : css_length;
  style_width : css_length
}.

Record DOMRect : Type := {
  rect_left : number;
  rect_top : number;
  rect_width : number;
  rect_height : number
}.

(** The object found at [options.options]. *)
Record Settings : Type := {
  opt_fps : option number;
  opt_waitForAssets : option bool;
  opt_backgroundColour : option string;
  opt_size : option Size;
  opt_assets : option (list string)
}.

(** The user content object, [options]: its [options] member, and the two
    members [resizeCanvas] writes to it.  Its hooks [init], [update] and
    [draw] are not fields: the engine calls them without a test, and
    they are taken to be functions, as the engine asks of its user. *)
Record UserContent : Type := {
  uc_options : option Settings;
  uc_ratio : option number;
  uc_canvasBounds : option DOMRect
}.

(** Values of [window.performance.now()] during one call of [renderLoop]:
    at [timeNow], at the update of [lastUpdate], at the update of
    [lastDraw] (read only when the tick draws). *)
Record TickClock : Type := {
  at_timeNow : number;
  at_lastUpdate : number;
  at_lastDraw : number
}.

Definition is_update (ev : event) : bool :=
  match ev with OptionsUpdate _ => true | _ => false end.

Definition is_draw (ev : event) : bool :=
  match ev with OptionsDraw => true | _ => false end.

(** How many times a trace calls the user's [update], and [draw]. *)
Definition updates (tr : list event) : nat := List.length (List.filter is_update tr).
Definition draws (tr : list event) : nat := List.length (List.filter is_draw tr).

(** [undefined] read as a number is NaN. *)
Definition to_number (x : option number) : number :=
  match x with
  | Some a => a
  | None => NaN
  end.

Definition setAttribute_height (v : number) (c : Canvas) : Canvas :=
  {| attr_height := v; attr_width := attr_width c;
     style_height := style_height c; style_width := style_width c |}.

Definition setAttribute_width (v : number) (c : Canvas) : Canvas :=
  {| attr_height := attr_height c; attr_width := v;
     style_height := style_height c; style_width := style_width c |}.

Definition set_style_height (v : css_length) (c : Canvas) : Canvas :=
  {| attr_height := attr_height c; attr_width := attr_width c;
     style_height := v; style_width := style_width c |}.

Definition set_style_width (v : css_length) (c : Canvas) : Canvas :=
  {| attr_height := attr_height c; attr_width := attr_width c;
     style_height := style_height c; style_width := v |}.

(** * [src/js/index.js] *)

Module Index.

(** The fields of an engine object.  [ratio] and [canvasBounds] do not
    exist before the first [resizeCanvas]. *)
Record AG2D_state : Type := {
  canvas : Canvas;
  options : UserContent;
  fps : number;
  waitForAssets : bool;
  backgroundColour : string;
  size : Size;
  lastUpdate : number;
  lastDraw : number;
  interval : number;
  ratio : option number;
  canvasBounds : option DOMRect
}.

Definition set_lastUpdate (v : number) (this : AG2D_state) : AG2D_state :=
  {| canvas := canvas this; options := options this; fps := fps this;
     waitForAssets := waitForAssets this;
     backgroundColour := backgroundColour this; size := size this;
     lastUpdate := v; lastDraw := lastDraw this; interval := interval this;
     ratio := ratio this; canvasBounds := canvasBounds this |}.

Definition set_lastDraw (v : number) (this : AG2D_state) : AG2D_state :=
  {| canvas := canvas this; options := options this; fps := fps this;
     waitForAssets := waitForAssets this;
     backgroundColour := backgroundColour this; size := size this;
     lastUpdate := lastUpdate this; lastDraw := v; interval := interval this;
     ratio := ratio this; canvasBounds := canvasBounds this |}.

(** [this.options.ratio = this.ratio = v] *)
Definition set_ratio (v : number) (this : AG2D_state) : AG2D_state :=
  {| canvas := canvas this;
     options := {| uc_options := uc_options (options this);
                   uc_ratio := Some v;
                   uc_canvasBounds := uc_canvasBounds (options this) |};
     fps := fps this; waitForAssets := waitForAssets this;
     backgroundColour := backgroundColour this; size := size this;
     lastUpdate := lastUpdate this; lastDraw := lastDraw this;
     interval := interval this;
     ratio := Some v; canvasBounds := canvasBounds this |}.

Definition set_canvas (c : Canvas) (this : AG2D_state) : AG2D_state :=
  {| canvas := c; options := options this; fps := fps this;
     waitForAssets := waitForAssets this;
     backgroundColour := backgroundColour this; size := size this;
     lastUpdate := lastUpdate this; lastDraw := lastDraw this;
     interval := interval this;
     ratio := ratio this; canvasBounds := canvasBounds this |}.

(** [this.options.canvasBounds = this.canvasBounds = r] *)
Definition set_canvasBounds (r : DOMRect) (this : AG2D_state) : AG2D_state :=
  {| canvas := canvas this;
     options := {| uc_options := uc_options (options this);
                   uc_ratio := uc_ratio (options this);
                   uc_canvasBounds := Some r |};
     fps := fps this; waitForAssets := waitForAssets this;
     backgroundColour := backgroundColour this; size := size this;
     lastUpdate := lastUpdate this; lastDraw := lastDraw this;
     interval := interval this;
     ratio := ratio this; canvasBounds := Some r |}.

Section Host.

(** [window.devicePixelRatio], and the layout: the rectangle the browser
    reports for a canvas. *)
Variable devicePixelRatio : number.
Variable getBoundingClientRect : Canvas -> DOMRect.

Local Open Scope js_scope.

(** The four modules are created here; none of them is part of the model. *)
Definition loadModules : Js AG2D_state unit := ret tt.

Definition update (deltaTime : number) : Js AG2D_state unit :=
  emit (AnimatorUpdate deltaTime) >>;
  emit (OptionsUpdate deltaTime).

Definition clearCanvas : Js AG2D_state unit :=
  let! this := get in
  emit (ContextClearRect (Fin 0) (Fin 0) (width (size this)) (height (size this))) >>;
  if negb (String.eqb (backgroundColour this) "transparent")
  then
    emit (ContextFillStyle (backgroundColour this)) >>;
    emit (ContextFillRect (Fin 0) (Fin 0) (width (size this)) (height (size this)))
  else ret tt.

Definition draw : Js AG2D_state unit :=
  emit ContextSave >>;
  let! this := get in
  emit (ContextScale (fmul devicePixelRatio (to_number (ratio this)))
                     (fmul devicePixelRatio (to_number (ratio this)))) >>;
  clearCanvas >>;
  emit OptionsDraw >>;
  emit ContextRestore.

Definition renderLoop (clock : TickClock) : Js AG2D_state unit :=
  emit RequestAnimationFrame >>;
  let timeNow := at_timeNow clock in
  let! this := get in
  let drawDeltaTime := nsub timeNow (lastDraw this) in
  let updateDeltaTime := nsub timeNow (lastUpdate this) in
  update updateDeltaTime >>;
  modify (set_lastUpdate (at_lastUpdate clock)) >>;
  if ngt drawDeltaTime (interval this)
  then
    draw >>;
    modify (set_lastDraw (nsub (at_lastDraw clock) (nmod drawDeltaTime (interval this))))
  else ret tt.

(** The parameters [width] and [height] of the source are [w] and [h];
    the values they hold after the branch are [w'] and [h'].  Products
    and quotients are those of doubles. *)
Definition resizeCanvas (w h : number) : Js AG2D_state unit :=
  let! this := get in
  let ratio := fdiv w h in
  let destRatio := fdiv (width (size this)) (height (size this)) in
  let w' := if ngt ratio destRatio then Math_floor (fmul h destRatio) else w in
  let h' := if ngt ratio destRatio then h else Math_floor (fdiv w destRatio) in
  modify (set_ratio (fdiv w' (width (size this)))) >>;
  modify (fun this => set_canvas (setAttribute_height (Math_round (fmul h' devicePixelRatio)) (canvas this)) this) >>;
  modify (fun this => set_canvas (setAttribute_width (Math_round (fmul w' devicePixelRatio)) (canvas this)) this) >>;
  modify (fun this => set_canvas (set_style_height (px h') (canvas this)) this) >>;
  modify (fun this => set_canvas (set_style_width (px w') (canvas this)) this) >>;
  modify (fun this => set_canvasBounds (getBoundingClientRect (canvas this)) this).

(** The references are written to the user content object, which the
    model does not follow further. *)
Definition inject : Js AG2D_state unit := ret tt.

Definition bindEventListeners : Js AG2D_state unit :=
  emit (AddEventListener "keydown") >>;
  emit (AddEventListener "keyup") >>;
  emit (AddEventListener "resize").

Definition setUpCanvas (clock : TickClock) : Js AG2D_state unit :=
  let! this := get in
  resizeCanvas (width (size this)) (height (size this)) >>;
  inject >>;
  bindEventListeners >>;
  emit OptionsInit >>;
  emit OptionsDraw >>;
  renderLoop clock.

(** With [waitForAssets] and a list of assets, [setUpCanvas] is left to
    the loader's callback and does not run inside [init]. *)
Definition init (assets : option (list string)) (clock : TickClock) : Js AG2D_state unit :=
  let! this := get in
  loadModules >>;
  if waitForAssets this && bool_decide (is_Some assets)
  then emit AddAssets >>; emit LoadAssets
  else setUpCanvas clock.

(** The constructor.  [now1] and [now2] are the clock values stored in
    [lastUpdate] and [lastDraw]; [clock] serves the first [renderLoop]. *)
Definition AG2D (canvas : Canvas) (options : option UserContent)
    (now1 now2 : number) (clock : TickClock)
  : js_error + (unit * AG2D_state * list event) :=
  let options :=
    object_or options
      {| uc_options := None; uc_ratio := None; uc_canvasBounds := None |} in
  match uc_options options with
  | None => inl TypeError
  | Some o =>
      let fps := number_or (opt_fps o) (Fin 60) in
      init (opt_assets o) clock
        {| canvas := canvas;
           options := options;
           fps := fps;
           waitForAssets := bool_or (opt_waitForAssets o) false;
           backgroundColour := string_or (opt_backgroundColour o) "transparent";
           size := object_or (opt_size o) {| height := Fin 150; width := Fin 300 |};
           lastUpdate := now1;
           lastDraw := now2;
           interval := ndiv (Fin 1000) fps;
           ratio := None;
           canvasBounds := None |}
  end.

(** A run of the loop: one [renderLoop] per element of [clocks]; the
    result keeps the trace of each tick apart. *)
Fixpoint run (clocks : list TickClock) (this : AG2D_state)
  : js_error + (AG2D_state * list (list event)) :=
  match clocks with
  | [] => inr (this, [])
  | clock :: rest =>
      match renderLoop clock this with
      | inl e => inl e
      | inr (_, this1, tr) =>
          match run rest this1 with
          | inl e => inl e
          | inr (this2, trs) => inr (this2, tr :: trs)
          end
      end
  end.

End Host.

End Index.

(** * [src/js/modules/ag2d.js] *)

Module Ag2d.

Record AG2D_state : Type := {
  canvas : Canvas;
  options : UserContent;
  fps : number;
  backgroundColour : string;
  size : Size;
  lastDraw : number;
  interval : number
}.

Definition set_lastDraw (v : number) (this : AG2D_state) : AG2D_state :=
  {| canvas := canvas this; options := options this; fps := fps this;
     backgroundColour := backgroundColour this; size := size this;
     lastDraw := v; interval := interval this |}.

Definition set_canvas (c : Canvas) (this : AG2D_state) : AG2D_state :=
  {| canvas := c; options := options this; fps := fps this;
     backgroundColour := backgroundColour this; size := size this;
     lastDraw := lastDraw this; interval := interval this |}.

Section Host.

(** [window.devicePixelRatio], and the layout: the size the browser gives
    the canvas element. *)
Variable devicePixelRatio : number.
Variable offsetWidth : Canvas -> number.
Variable offsetHeight : Canvas -> number.

Local Open Scope js_scope.

Definition update (deltaTime : number) : Js AG2D_state unit :=
  emit (OptionsUpdate deltaTime).

Definition clearCanvas : Js AG2D_state unit :=
  let! this := get in
  emit (ContextClearRect (Fin 0) (Fin 0)
          (offsetWidth (canvas this)) (offsetHeight (canvas this))) >>;
  if negb (String.eqb (backgroundColour this) "transparent")
  then
    emit (ContextFillStyle (backgroundColour this)) >>;
    emit (ContextFillRect (Fin 0) (Fin 0)
            (offsetWidth (canvas this)) (offsetHeight (canvas this)))
  else ret tt.

Definition draw : Js AG2D_state unit :=
  emit ContextSave >>;
  emit (ContextScale devicePixelRatio devicePixelRatio) >>;
  clearCanvas >>;
  emit OptionsDraw >>;
  emit ContextRestore.

(** One clock value per tick: [timeNow]. *)
Definition renderLoop (timeNow : number) : Js AG2D_state unit :=
  emit RequestAnimationFrame >>;
  let! this := get in
  let deltaTime := nsub timeNow (lastDraw this) in
  update deltaTime >>;
  if ngt deltaTime (interval this)
  then
    draw >>;
    modify (set_lastDraw (nsub timeNow (nmod deltaTime (interval this))))
  else ret tt.

Definition resizeCanvas (w h : number) : Js AG2D_state unit :=
  modify (fun this => set_canvas (setAttribute_height (Math_round (nmul h devicePixelRatio)) (canvas this)) this) >>;
  modify (fun this => set_canvas (setAttribute_width (Math_round (nmul w devicePixelRatio)) (canvas this)) this) >>;
  modify (fun this => set_canvas (set_style_height (px h) (canvas this)) this) >>;
  modify (fun this => set_canvas (set_style_width (px w) (canvas this)) this).

Definition inject : Js AG2D_state unit := ret tt.

Definition bindEventListeners : Js AG2D_state unit :=
  emit (AddEventListener "keydown") >>;
  emit (AddEventListener "keyup") >>;
  emit (AddEventListener "resize").

Definition init (timeNow : number) : Js AG2D_state unit :=
  let! this := get in
  resizeCanvas (width (size this)) (height (size this)) >>;
  inject >>;
  bindEventListeners >>;
  emit OptionsInit >>;
  emit OptionsDraw >>;
  renderLoop timeNow.

(** The constructor.  [now0] is the clock value stored in [lastDraw];
    [timeNow] serves the first [renderLoop]. *)
Definition AG2D (canvas : Canvas) (options : option UserContent)
    (now0 timeNow : number)
  : js_error + (unit * AG2D_state * list event) :=
  let options :=
    object_or options
      {| uc_options := None; uc_ratio := None; uc_canvasBounds := None |} in
  match uc_options options with
  | None => inl TypeError
  | Some o =>
      let fps := number_or (opt_fps o) (Fin 60) in
      init timeNow
        {| canvas := canvas;
           options := options;
           fps := fps;
           backgroundColour := string_or (opt_backgroundColour o) "transparent";
           size := object_or (opt_size o) {| height := Fin 150; width := Fin 300 |};
           lastDraw := now0;
           interval := ndiv (Fin 1000) fps |}
  end.

Fixpoint run (times : list number) (this : AG2D_state)
  : js_error + (AG2D_state * list (list event)) :=
  match times with
  | [] => inr (this, [])
  | timeNow :: rest =>
      match renderLoop timeNow this with
      | inl e => inl e
      | inr (_, this1, tr) =>
          match run rest this1 with
          | inl e => inl e
          | inr (this2, trs) => inr (this2, tr :: trs)
          end
      end
  end.

End Host.

End Ag2d.

(** * [src/js/models/Animation.js] *)

Module Animation.

(** A JavaScript value as far as the schema can tell values apart.  An
    object is a reference; an array holds references. *)
Inductive value : Type :=
| VNumber (n : number)
| VBoolean (b : bool)
| VString (s : string)
| VArray (items : list positive)
| VObject (ref : positive).

(** The strings a schema entry may give as its ['type']. *)
Inductive prop_type : Type :=
| TAny
| TNumber
| TArray
| TBoolean
| TString
| TObject.

(** One entry of a schema; a missing ['required'] reads as [false]. *)
Record prop_spec : Type := {
  type : prop_type;
  required : bool;
  default : option value
}.

(** The object literal handed to [PropertyValidator] in Animation.js. *)
Definition schema : list (string * prop_spec) :=
  [ ("context", {| type := TAny; required := true; default := None |});
    ("fps", {| type := TNumber; required := false;
               default := Some (VNumber (Fin 60)) |});
    ("frames", {| type := TArray; required := true; default := None |});
    ("loop", {| type := TBoolean; required := false;
                default := Some (VBoolean true) |});
    ("name", {| type := TString; required := true; default := None |});
    ("spriteSheet", {| type := TObject; required := true; default := None |}) ].

Definition has_type (t : prop_type) (v : value) : bool :=
  match t, v with
  | TAny, _ => true
  | TNumber, VNumber _ => true
  | TArray, VArray _ => true
  | TBoolean, VBoolean _ => true
  | TString, VString _ => true
  | TObject, VObject _ => true
  | _, _ => false
  end.

(** Modelled from the spec: [PropertyValidator]
    (src/js/modules/PropertyValidator.js) is not among the sources.  The
    specification has a record "validated against the schema", where
    "invalid or missing required fields fail construction immediately"
    with [InvalidConfiguration], and a field that has a default takes it
    when the record omits it.  A field is invalid when its value is not of
    the type the schema declares.  The result is the validated record or
    the error, never both. *)
Fixpoint PropertyValidator (entries : list (string * prop_spec))
    (record : gmap string value) : js_error + gmap string value :=
  match entries with
  | [] => inr ∅
  | (key, p) :: rest =>
      match record !! key with
      | Some v =>
          if has_type (type p) v
          then match PropertyValidator rest record with
               | inl e => inl e
               | inr obj => inr (<[key := v]> obj)
               end
          else inl InvalidConfiguration
      | None =>
          if required p
          then inl InvalidConfiguration
          else match PropertyValidator rest record with
               | inl e => inl e
               | inr obj =>
                   inr (match default p with
                        | Some d => <[key := d]> obj
                        | None => obj
                        end)
               end
      end
  end.

(** [var Animation = new PropertyValidator({ ... })] *)
Definition Animation : gmap string value -> js_error + gmap string value :=
  PropertyValidator schema.

End Animation.

(** * Relations between an object before and after a method

    Both engines set the frame rate and the interval in the constructor
    only. *)

Definition index_same_rate (s s' : Index.AG2D_state) : Prop :=
  Index.fps s' = Index.fps s /\ Index.interval s' = Index.interval s.

Definition ag2d_same_rate (s s' : Ag2d.AG2D_state) : Prop :=
  Ag2d.fps s' = Ag2d.fps s /\ Ag2d.interval s' = Ag2d.interval s.

(** * Concrete hosts and objects

    Used to run the definitions on explicit inputs. *)

Module Sample.

(** A canvas element as the browser creates it: 300 by 150, no style. *)
Definition blank_canvas : Canvas :=
  {| attr_height := Fin 150; attr_width := Fin 300;
     style_height := css_unset; style_width := css_unset |}.

(** A layout that puts the canvas at the origin with its CSS size. *)
Definition flat_layout (c : Canvas) : DOMRect :=
  {| rect_left := Fin 0; rect_top := Fin 0;
     rect_width := match style_width c with px n => n | css_unset => attr_width c end;
     rect_height := match style_height c with px n => n | css_unset => attr_height c end |}.

Definition settings (fps : option number) (size : option Size) : Settings :=
  {| opt_fps := fps; opt_waitForAssets := None; opt_backgroundColour := None;
     opt_size := size; opt_assets := None |}.

Definition content (o : Settings) : UserContent :=
  {| uc_options := Some o; uc_ratio := None; uc_canvasBounds := None |}.

(** A clock that does not move during a tick. *)
Definition still (t : Q) : TickClock :=
  {| at_timeNow := Fin t; at_lastUpdate := Fin t; at_lastDraw := Fin t |}.

(** A clock that moves on by [d] between each of its three readings. *)
Definition moving (t d : Q) : TickClock :=
  {| at_timeNow := Fin t; at_lastUpdate := Fin (t + d); at_lastDraw := Fin (t + d + d) |}.

(** An index.js engine of logical size [lw] by [lh], last stamped at [t],
    with draw interval [iv]; the canvas is already fitted to its logical
    size. *)
Definition engine (lw lh t iv : Q) : Index.AG2D_state :=
  {| Index.canvas :=
       {| attr_height := Fin lh; attr_width := Fin lw;
          style_height := px (Fin lh); style_width := px (Fin lw) |};
     Index.options :=
       {| uc_options := Some (settings (Some (Fin (1000 / iv)))
                                (Some {| width := Fin lw; height := Fin lh |}));
          uc_ratio := Some (Fin 1);
          uc_canvasBounds :=
            Some {| rect_left := Fin 0; rect_top := Fin 0;
                    rect_width := Fin lw; rect_height := Fin lh |} |};
     Index.fps := Fin (1000 / iv);
     Index.waitForAssets := false;
     Index.backgroundColour := "transparent";
     Index.size := {| width := Fin lw; height := Fin lh |};
     Index.lastUpdate := Fin t;
     Index.lastDraw := Fin t;
     Index.interval := Fin iv;
     Index.ratio := Some (Fin 1);
     Index.canvasBounds :=
       Some {| rect_left := Fin 0; rect_top := Fin 0;
               rect_width := Fin lw; rect_height := Fin lh |} |}.

(** The same for modules/ag2d.js. *)
Definition old_engine (lw lh t iv : Q) : Ag2d.AG2D_state :=
  {| Ag2d.canvas :=
       {| attr_height := Fin lh; attr_width := Fin lw;
          style_height := px (Fin lh); style_width := px (Fin lw) |};
     Ag2d.options :=
       {| uc_options := Some (settings (Some (Fin (1000 / iv)))
                                (Some {| width := Fin lw; height := Fin lh |}));
          uc_ratio := None; uc_canvasBounds := None |};
     Ag2d.fps := Fin (1000 / iv);
     Ag2d.backgroundColour := "transparent";
     Ag2d.size := {| width := Fin lw; height := Fin lh |};
     Ag2d.lastDraw := Fin t;
     Ag2d.interval := Fin iv |}.

(** Engine options with an fps of 0, and with a negative fps. *)
Definition zero_fps : Settings := settings (Some (Fin 0)) None.
Definition negative_fps : Settings := settings (Some (Fin (-30))) None.

(** An animation record that gives the four required fields only. *)
Definition walk : gmap string Animation.value :=
  <["context" := Animation.VObject 1]>
    (<["frames" := Animation.VArray [2; 3]%positive]>
       (<["name" := Animation.VString "walk"]>
          (<["spriteSheet" := Animation.VObject 4]> ∅))).

End Sample.

(** * Clocks with finite readings *)

(** The three readings of a tick, as rationals. *)
Definition tick_of (r : Q * Q * Q) : TickClock :=
  {| at_timeNow := Fin (fst (fst r));
     at_lastUpdate := Fin (snd (fst r));
     at_lastDraw := Fin (snd r) |}.

(** A clock that never runs backwards: every reading is at or after the
    one before it, inside a tick and from one tick to the next.  [prev]
    is a time at or before the first reading. *)
Fixpoint clock_ascends (prev : Q) (rs : list (Q * Q * Q)) : Prop :=
  match rs with
  | [] => True
  | r :: rest =>
      prev <= fst (fst r) /\ fst (fst r) <= snd (fst r) /\ snd (fst r) <= snd r
      /\ clock_ascends (snd r) rest
  end.

(** The same for modules/ag2d.js, which reads the clock once a tick. *)
Fixpoint times_ascend (prev : Q) (ts : list Q) : Prop :=
  match ts with
  | [] => True
  | t :: rest => prev <= t /\ times_ascend t rest
  end.

(** The deltas a trace hands to the user's [update], in order. *)
Fixpoint update_deltas (tr : list event) : list number :=
  match tr with
  | [] => []
  | OptionsUpdate d :: rest => d :: update_deltas rest
  | _ :: rest => update_deltas rest
  end.

(** * [src/js/modules/Scene.js] *)

Module Scene.

(** The fields of a scene.  The console is the list of lines the
    methods print, oldest first. *)
Record Scene_state : Type := {
  name : string;
  enterCount : number;
  exitCount : number
}.

(** [constructor (name = 'Default')]: a missing argument takes the
    default. *)
Definition Scene (name : option string) : Scene_state * list string :=
  let name := object_or name "Default"%string in
  ({| name := name; enterCount := Fin 0; exitCount := Fin 0 |},
   [String.append "Init: " name]).

Definition render (this : Scene_state) : Scene_state * list string :=
  (this, [String.append "Render: " (name this)]).

Definition sceneEnter (this : Scene_state) : Scene_state * list string :=
  (this, [String.append "Scene Enter: " (name this)]).

Definition sceneExit (this : Scene_state) : Scene_state * list string :=
  (this, [String.append "Scene Exit: " (name this)]).

Definition update (this : Scene_state) : Scene_state * list string :=
  (this, [String.append "Update: " (name this)]).

(** The four methods, to speak of a sequence of calls. *)
Inductive method : Type :=
| Render
| SceneEnter
| SceneExit
| Update.

Definition call (m : method) : Scene_state -> Scene_state * list string :=
  match m with
  | Render => render
  | SceneEnter => sceneEnter
  | SceneExit => sceneExit
  | Update => update
  end.

Definition label (m : method) : string :=
  match m with
  | Render => "Render: "
  | SceneEnter => "Scene Enter: "
  | SceneExit => "Scene Exit: "
  | Update => "Update: "
  end.

(** Calls made one after the other on the same scene. *)
Fixpoint calls (ms : list method) (this : Scene_state) : Scene_state * list string :=
  match ms with
  | [] => (this, [])
  | m :: rest =>
      let '(this1, out1) := call m this in
      let '(this2, out2) := calls rest this1 in
      (this2, out1 ++ out2)
  end.

End Scene.

(** * Further concrete objects *)

Module Fixture.

(** Engine options asking for an unbounded frame rate. *)
Definition infinite_fps : Settings :=
  {| opt_fps := Some Infinity; opt_waitForAssets := None;
     opt_backgroundColour := None; opt_size := None; opt_assets := None |}.

(** Engine options that wait for two assets. *)
Definition waiting : Settings :=
  {| opt_fps := None; opt_waitForAssets := Some true;
     opt_backgroundColour := None; opt_size := None;
     opt_assets := Some ["hero.png"; "tiles.png"]%string |}.

(** Engine options that give nothing. *)
Definition bare : Settings :=
  {| opt_fps := None; opt_waitForAssets := None;
     opt_backgroundColour := None; opt_size := None; opt_assets := None |}.

(** A user content object without an [options] member. *)
Definition no_options : UserContent :=
  {| uc_options := None; uc_ratio := None; uc_canvasBounds := None |}.

(** An index.js engine with the given frame rate and interval, stamped
    at [t]. *)
Definition engine_at (rate iv : number) (t : Q) : Index.AG2D_state :=
  {| Index.canvas := Sample.blank_canvas;
     Index.options := Sample.content bare;
     Index.fps := rate;
     Index.waitForAssets := false;
     Index.backgroundColour := "transparent";
     Index.size := {| width := Fin 300; height := Fin 150 |};
     Index.lastUpdate := Fin t;
     Index.lastDraw := Fin t;
     Index.interval := iv;
     Index.ratio := Some (Fin 1);
     Index.canvasBounds := None |}.

(** The same for modules/ag2d.js. *)
Definition old_engine_at (rate iv : number) (t : Q) : Ag2d.AG2D_state :=
  {| Ag2d.canvas := Sample.blank_canvas;
     Ag2d.options := Sample.content bare;
     Ag2d.fps := rate;
     Ag2d.backgroundColour := "transparent";
     Ag2d.size := {| width := Fin 300; height := Fin 150 |};
     Ag2d.lastDraw := Fin t;
     Ag2d.interval := iv |}.

End Fixture.

(** What [renderLoop] of index.js leaves alone: the canvas, the ratio,
    the bounds, the logical size, the colour and the user content. *)
Definition index_same_view (s s' : Index.AG2D_state) : Prop :=
  Index.canvas s' = Index.canvas s
  /\ Index.ratio s' = Index.ratio s
  /\ Index.canvasBounds s' = Index.canvasBounds s
  /\ Index.size s' = Index.size s
  /\ Index.backgroundColour s' = Index.backgroundColour s
  /\ Index.options s' = Index.options s.

Definition ag2d_same_view (s s' : Ag2d.AG2D_state) : Prop :=
  Ag2d.canvas s' = Ag2d.canvas s
  /\ Ag2d.size s' = Ag2d.size s
  /\ Ag2d.backgroundColour s' = Ag2d.backgroundColour s
  /\ Ag2d.options s' = Ag2d.options s.

(** * Facts about numbers *)

Lemma ngt_Fin_true (x y : Q) : ngt (Fin x) (Fin y) = true <-> y < x.
Proof.
  simpl. rewrite negb_true_iff. split.
  - intros H. apply Qnot_le_lt. intros Hle.
    apply Qle_bool_iff in Hle. congruence.
  - intros H. destruct (Qle_bool x y) eqn:E; [|reflexivity].
    apply Qle_bool_iff in E. lra.
Qed.

Lemma ngt_Fin_false (x y : Q) : ngt (Fin x) (Fin y) = false <-> x <= y.
Proof.
  simpl. rewrite negb_false_iff. apply Qle_bool_iff.
Qed.

Lemma Qeq_bool_false (x y : Q) : ~ x == y -> Qeq_bool x y = false.
Proof.
  intros H. destruct (Qeq_bool x y) eqn:E; [|reflexivity].
  apply Qeq_bool_iff in E. contradiction.
Qed.

Lemma ndiv_Fin (x y : Q) : ~ y == 0 -> ndiv (Fin x) (Fin y) = Fin (x / y).
Proof. intros H. simpl. now rewrite (Qeq_bool_false _ _ H). Qed.

Lemma nmod_Fin (x y : Q) :
  ~ y == 0 -> nmod (Fin x) (Fin y) = Fin (x - y * inject_Z (Qtrunc (x / y))).
Proof. intros H. simpl. now rewrite (Qeq_bool_false _ _ H). Qed.

(** * Facts about binary64 *)

(** ** Powers of two *)
Lemma pow2_pos (e : Z) : 0 < 2 ^ e.
Proof. apply Qpower_0_lt. reflexivity. Qed.

Lemma pow2_plus (a b : Z) : 2 ^ (a + b) == 2 ^ a * 2 ^ b.
Proof. apply Qpower_plus. discriminate. Qed.

Lemma pow2_nonneg_Z (n : Z) : (0 <= n)%Z -> 2 ^ n == inject_Z (2 ^ n).
Proof. intros H. rewrite (Zpower_Qpower 2 n H). reflexivity. Qed.

Lemma pow2_ge_1 (n : Z) : (0 <= n)%Z -> 1 <= 2 ^ n.
Proof.
  intros H. rewrite (pow2_nonneg_Z n H). change 1 with (inject_Z 1).
  rewrite <- Zle_Qle. pose proof (Z.pow_pos_nonneg 2 n). lia.
Qed.

Lemma pow2_le (a b : Z) : (a <= b)%Z -> 2 ^ a <= 2 ^ b.
Proof.
  intros H. replace b with (a + (b - a))%Z by lia. rewrite pow2_plus.
  pose proof (pow2_pos a). pose proof (pow2_ge_1 (b - a) ltac:(lia)). nra.
Qed.

Lemma pow2_succ (a : Z) : 2 ^ (a + 1) == 2 * 2 ^ a.
Proof. rewrite pow2_plus. change (2 ^ 1) with 2. ring. Qed.

Lemma pow2_lt (a b : Z) : (a < b)%Z -> 2 ^ a < 2 ^ b.
Proof.
  intros H. pose proof (pow2_le (a + 1) b ltac:(lia)) as L.
  rewrite pow2_succ in L. pose proof (pow2_pos a). lra.
Qed.

Lemma pow2_lt_inv (a b : Z) : 2 ^ a < 2 ^ b -> (a < b)%Z.
Proof.
  intros H. destruct (Z_lt_le_dec a b) as [|C]; [assumption|].
  pose proof (pow2_le b a C). lra.
Qed.

(** ** The binary logarithm *)
Lemma ilog2_spec (q : Q) : 0 < q -> 2 ^ ilog2 q <= q /\ q < 2 ^ (ilog2 q + 1).
Proof.
  intros Hq. destruct q as [n d]. unfold ilog2. cbn [Qnum Qden].
  assert (Hn : (0 < n)%Z).
  { unfold Qlt in Hq. cbn in Hq. lia. }
  set (a := Z.log2 n). set (b := Z.log2 (Z.pos d)).
  destruct (Z.log2_spec n Hn) as [A1 A2]. fold a in A1, A2.
  destruct (Z.log2_spec (Z.pos d) ltac:(lia)) as [B1 B2]. fold b in B1, B2.
  assert (Ha : (0 <= a)%Z) by apply Z.log2_nonneg.
  assert (Hb : (0 <= b)%Z) by apply Z.log2_nonneg.
  assert (Hnd : (n # d) * inject_Z (Z.pos d) == inject_Z n).
  { unfold Qeq, Qmult, inject_Z. cbn. lia. }
  assert (Da : 2 ^ a == inject_Z (2 ^ a)) by (apply pow2_nonneg_Z; lia).
  assert (Db : 2 ^ b == inject_Z (2 ^ b)) by (apply pow2_nonneg_Z; lia).
  assert (QA1 : 2 ^ a <= inject_Z n) by (rewrite Da, <- Zle_Qle; lia).
  assert (QA2 : inject_Z n < 2 * 2 ^ a).
  { rewrite Da. change 2 with (inject_Z 2) at 1. rewrite <- inject_Z_mult, <- Zlt_Qlt.
    rewrite Z.pow_succ_r in A2 by lia. lia. }
  assert (QB1 : 2 ^ b <= inject_Z (Z.pos d)) by (rewrite Db, <- Zle_Qle; lia).
  assert (QB2 : inject_Z (Z.pos d) < 2 * 2 ^ b).
  { rewrite Db. change 2 with (inject_Z 2) at 1. rewrite <- inject_Z_mult, <- Zlt_Qlt.
    rewrite Z.pow_succ_r in B2 by lia. lia. }
  assert (Hab : 2 ^ a == 2 ^ (a - b) * 2 ^ b).
  { rewrite <- pow2_plus. replace (a - b + b)%Z with a by lia. reflexivity. }
  pose proof (pow2_pos (a - b)) as P. pose proof (pow2_pos b) as Pb.
  pose proof (pow2_pos a) as Pa.
  assert (Hd : 0 < inject_Z (Z.pos d)) by (change 0 with (inject_Z 0); rewrite <- Zlt_Qlt; lia).
  destruct (Qle_bool (2 ^ (a - b)) (n # d)) eqn:E.
  - apply Qle_bool_iff in E. split; [exact E|].
    rewrite pow2_succ. apply Qnot_le_lt. intros C. nra.
  - assert (E' : (n # d) < 2 ^ (a - b)).
    { apply Qnot_le_lt. intros C. apply Qle_bool_iff in C. congruence. }
    replace (a - b - 1 + 1)%Z with (a - b)%Z by lia. split; [|exact E'].
    assert (Hs : 2 ^ (a - b) == 2 * 2 ^ (a - b - 1)).
    { rewrite <- pow2_succ. replace (a - b - 1 + 1)%Z with (a - b)%Z by lia. reflexivity. }
    apply Qnot_lt_le. intros C. nra.
Qed.

Lemma ilog2_unique (q : Q) (l : Z) : 2 ^ l <= q -> q < 2 ^ (l + 1) -> ilog2 q = l.
Proof.
  intros H1 H2. assert (Hq : 0 < q) by (pose proof (pow2_pos l); lra).
  destruct (ilog2_spec q Hq) as [S1 S2].
  assert (ilog2 q < l + 1)%Z by (apply pow2_lt_inv; lra).
  assert (l < ilog2 q + 1)%Z by (apply pow2_lt_inv; lra).
  lia.
Qed.

Lemma ilog2_mono (x y : Q) : 0 < x -> x <= y -> (ilog2 x <= ilog2 y)%Z.
Proof.
  intros Hx Hxy. destruct (ilog2_spec x Hx) as [X1 X2].
  destruct (ilog2_spec y ltac:(lra)) as [Y1 Y2].
  assert (ilog2 x < ilog2 y + 1)%Z by (apply pow2_lt_inv; lra). lia.
Qed.

(** ** Rounding to an integer, ties to even *)
Ltac compare_facts :=
  repeat match goal with
         | H : Qcompare _ _ = Eq |- _ => apply Qeq_alt in H
         | H : Qcompare _ _ = Lt |- _ => apply Qlt_alt in H
         | H : Qcompare _ _ = Gt |- _ => apply Qgt_alt in H
         end.

Lemma rnd_even_cases (x : Q) :
  rnd_even x = Qfloor x \/ rnd_even x = (Qfloor x + 1)%Z.
Proof.
  unfold rnd_even. destruct (Qcompare _ _); [destruct (Z.even _)| |]; auto.
Qed.

Lemma rnd_even_low (x : Q) : x - inject_Z (Qfloor x) < 1 # 2 -> rnd_even x = Qfloor x.
Proof.
  intros H. unfold rnd_even.
  destruct (Qcompare (x - inject_Z (Qfloor x)) (1 # 2)) eqn:C; [| reflexivity |].
  - apply Qeq_alt in C. lra.
  - apply Qgt_alt in C. lra.
Qed.

Lemma rnd_even_high (x : Q) : 1 # 2 < x - inject_Z (Qfloor x) -> rnd_even x = (Qfloor x + 1)%Z.
Proof.
  intros H. unfold rnd_even.
  destruct (Qcompare (x - inject_Z (Qfloor x)) (1 # 2)) eqn:C; [| | reflexivity].
  - apply Qeq_alt in C. lra.
  - apply Qlt_alt in C. lra.
Qed.

Lemma rnd_even_Z (z : Z) : rnd_even (inject_Z z) = z.
Proof.
  rewrite rnd_even_low; rewrite Qfloor_Z; [reflexivity|].
  assert (inject_Z z - inject_Z z == 0) by ring. lra.
Qed.

Lemma rnd_even_comp (x y : Q) : x == y -> rnd_even x = rnd_even y.
Proof.
  intros H. unfold rnd_even. rewrite (Qfloor_comp _ _ H).
  assert (E : x - inject_Z (Qfloor y) == y - inject_Z (Qfloor y)) by (rewrite H; reflexivity).
  now rewrite E.
Qed.

Lemma rnd_even_mono (x y : Q) : x <= y -> (rnd_even x <= rnd_even y)%Z.
Proof.
  intros H. pose proof (Qfloor_resp_le _ _ H) as F.
  destruct (Z.eq_dec (Qfloor x) (Qfloor y)) as [E | N].
  - unfold rnd_even. rewrite E.
    destruct (Qcompare (x - inject_Z (Qfloor y)) (1 # 2)) eqn:Cx;
      destruct (Qcompare (y - inject_Z (Qfloor y)) (1 # 2)) eqn:Cy;
      try destruct (Z.even (Qfloor y)); try lia; compare_facts; lra.
  - destruct (rnd_even_cases x) as [-> | ->]; destruct (rnd_even_cases y) as [-> | ->]; lia.
Qed.

Lemma rnd_even_nonneg (x : Q) : 0 <= x -> (0 <= rnd_even x)%Z.
Proof.
  intros H. change 0%Z with (rnd_even (inject_Z 0)) at 1. rewrite (rnd_even_Z 0).
  pose proof (rnd_even_mono 0 x H) as M. change 0 with (inject_Z 0) in M.
  now rewrite rnd_even_Z in M.
Qed.

(** ** Rounding a positive rational *)
Lemma expo_ge (q : Q) : (-1074 <= expo q)%Z.
Proof. unfold expo. lia. Qed.

Lemma expo_mono (x y : Q) : 0 < x -> x <= y -> (expo x <= expo y)%Z.
Proof. intros Hx Hxy. unfold expo. pose proof (ilog2_mono x y Hx Hxy). lia. Qed.

Lemma scaled_eq (q : Q) (e : Z) : (q / 2 ^ e) * 2 ^ e == q.
Proof. pose proof (pow2_pos e). field. lra. Qed.

Lemma round_pos_nonneg (q : Q) : 0 <= q -> 0 <= round_pos q.
Proof.
  intros H. unfold round_pos. pose proof (pow2_pos (expo q)) as P.
  assert (S : 0 <= q / 2 ^ expo q).
  { pose proof (scaled_eq q (expo q)). apply Qnot_lt_le. intros C. nra. }
  pose proof (rnd_even_nonneg _ S) as R. rewrite Zle_Qle in R.
  change (inject_Z 0) with 0 in R. nra.
Qed.

(** Below a power of two, the rounding stays at or below it. *)
Lemma round_pos_le_pow2 (q : Q) (k : Z) :
  0 < q -> q <= 2 ^ k -> (expo q <= k)%Z -> round_pos q <= 2 ^ k.
Proof.
  intros Hq Hk He. unfold round_pos. set (e := expo q) in *.
  pose proof (pow2_pos e) as P.
  assert (Hs : q / 2 ^ e <= inject_Z (2 ^ (k - e))).
  { rewrite <- pow2_nonneg_Z by lia.
    assert (E : 2 ^ k == 2 ^ (k - e) * 2 ^ e).
    { rewrite <- pow2_plus. replace (k - e + e)%Z with k by lia. reflexivity. }
    pose proof (scaled_eq q e). pose proof (pow2_pos (k - e)).
    apply Qnot_lt_le. intros C. nra. }
  pose proof (rnd_even_mono _ _ Hs) as M. rewrite rnd_even_Z in M.
  rewrite Zle_Qle in M. rewrite <- pow2_nonneg_Z in M by lia.
  assert (E : 2 ^ k == 2 ^ (k - e) * 2 ^ e).
  { rewrite <- pow2_plus. replace (k - e + e)%Z with k by lia. reflexivity. }
  pose proof (pow2_pos (k - e)). nra.
Qed.

Lemma round_pos_ge_pow2 (q : Q) (k : Z) :
  2 ^ k <= q -> (expo q <= k)%Z -> 2 ^ k <= round_pos q.
Proof.
  intros Hk He. unfold round_pos. set (e := expo q) in *.
  pose proof (pow2_pos e) as P.
  assert (E : 2 ^ k == 2 ^ (k - e) * 2 ^ e).
  { rewrite <- pow2_plus. replace (k - e + e)%Z with k by lia. reflexivity. }
  assert (Hs : inject_Z (2 ^ (k - e)) <= q / 2 ^ e).
  { rewrite <- pow2_nonneg_Z by lia.
    pose proof (scaled_eq q e). pose proof (pow2_pos (k - e)).
    apply Qnot_lt_le. intros C. nra. }
  pose proof (rnd_even_mono _ _ Hs) as M. rewrite rnd_even_Z in M.
  rewrite Zle_Qle in M. rewrite <- pow2_nonneg_Z in M by lia.
  pose proof (pow2_pos (k - e)). nra.
Qed.

Lemma round_pos_mono (x y : Q) : 0 < x -> x <= y -> round_pos x <= round_pos y.
Proof.
  intros Hx Hxy. pose proof (expo_mono x y Hx Hxy) as He.
  destruct (Z.eq_dec (expo x) (expo y)) as [E | N].
  - unfold round_pos. rewrite E. set (e := expo y).
    pose proof (pow2_pos e) as P.
    assert (Hs : x / 2 ^ e <= y / 2 ^ e).
    { pose proof (scaled_eq x e). pose proof (scaled_eq y e).
      apply Qnot_lt_le. intros C. nra. }
    pose proof (rnd_even_mono _ _ Hs) as M. rewrite Zle_Qle in M. nra.
  - (* the exponent of y is larger: a power of two lies between x and y *)
    assert (Hlt : (expo x < expo y)%Z) by lia.
    assert (Hy : expo y = (ilog2 y - 52)%Z) by (unfold expo in *; lia).
    assert (Hxl : (ilog2 x < ilog2 y)%Z) by (unfold expo in *; lia).
    destruct (ilog2_spec x Hx) as [X1 X2].
    destruct (ilog2_spec y ltac:(lra)) as [Y1 Y2].
    set (k := ilog2 y) in *.
    assert (Hxk : x <= 2 ^ k).
    { pose proof (pow2_le (ilog2 x + 1) k ltac:(lia)). lra. }
    apply Qle_trans with (2 ^ k).
    + apply round_pos_le_pow2; [assumption | assumption | lia].
    + apply round_pos_ge_pow2; [assumption | lia].
Qed.

(** A value with at most 53 significant bits, above the smallest
    exponent, is left as it is. *)
Lemma round_pos_fixed (z k : Z) :
  (0 < z)%Z -> (z < 2 ^ 53)%Z -> (-1074 <= k)%Z ->
  round_pos (inject_Z z * 2 ^ k) == inject_Z z * 2 ^ k.
Proof.
  intros Hz Hz53 Hk. set (r := inject_Z z * 2 ^ k).
  assert (Zq : 0 < inject_Z z) by (change 0 with (inject_Z 0); rewrite <- Zlt_Qlt; lia).
  pose proof (pow2_pos k) as Pk.
  assert (Hr : 0 < r) by (unfold r; nra).
  destruct (ilog2_spec r Hr) as [R1 R2].
  assert (Hil : (ilog2 r < 53 + k)%Z).
  { apply pow2_lt_inv. apply Qle_lt_trans with r; [exact R1|].
    unfold r. rewrite pow2_plus. rewrite (pow2_nonneg_Z 53) by lia.
    assert (inject_Z z < inject_Z (2 ^ 53)) by (rewrite <- Zlt_Qlt; lia). nra. }
  assert (He : (expo r <= k)%Z) by (unfold expo; lia).
  pose proof (expo_ge r) as He0.
  unfold round_pos. set (e := expo r) in *.
  assert (E : 2 ^ k == 2 ^ (k - e) * 2 ^ e).
  { rewrite <- pow2_plus. replace (k - e + e)%Z with k by lia. reflexivity. }
  assert (Hs : r / 2 ^ e == inject_Z (z * 2 ^ (k - e))).
  { rewrite inject_Z_mult, <- pow2_nonneg_Z by lia. unfold r. rewrite E.
    pose proof (pow2_pos e). field. lra. }
  rewrite (rnd_even_comp _ _ Hs), rnd_even_Z.
  rewrite inject_Z_mult, <- pow2_nonneg_Z by lia. unfold r. rewrite E. ring.
Qed.

(** ** Rounding and the order of numbers *)
Lemma round64_comp (p q : Q) : p == q -> round64 p = round64 q.
Proof. intros H. unfold round64. now rewrite (Qred_complete _ _ H). Qed.

Lemma ilog2_comp (x y : Q) : 0 < x -> x == y -> ilog2 x = ilog2 y.
Proof.
  intros Hx H. destruct (ilog2_spec x Hx) as [X1 X2].
  symmetry. apply ilog2_unique; rewrite <- H; assumption.
Qed.

Lemma round_pos_comp (x y : Q) : 0 < x -> x == y -> round_pos x == round_pos y.
Proof.
  intros Hx H. unfold round_pos, expo. rewrite (ilog2_comp x y Hx H).
  set (e := Z.max (ilog2 y - 52) (-1074)).
  assert (E : x / 2 ^ e == y / 2 ^ e) by (rewrite H; reflexivity).
  rewrite (rnd_even_comp _ _ E). reflexivity.
Qed.

Lemma clamp_mono (r1 r2 : Q) : r1 <= r2 -> nle (clamp r1) (clamp r2).
Proof.
  intros H. unfold clamp.
  destruct (Qle_bool (2 ^ 1024) r1) eqn:E1; destruct (Qle_bool (2 ^ 1024) r2) eqn:E2; cbn; auto.
  - apply Qle_bool_iff in E1.
    assert (2 ^ 1024 <= r2) by lra. apply Qle_bool_iff in H0. congruence.
  - rewrite !Qred_correct. exact H.
Qed.

Lemma clamp_nonneg (r : Q) : 0 <= r -> nle (Fin 0) (clamp r).
Proof.
  intros H. unfold clamp. destruct (Qle_bool (2 ^ 1024) r); cbn; auto.
  now rewrite Qred_correct.
Qed.

Lemma nle_trans (a b c : number) : nle a b -> nle b c -> nle a c.
Proof.
  destruct a, b, c; cbn; auto; try tauto. intros; lra.
Qed.

Lemma nle_nopp (a b : number) : nle a b -> nle (nopp b) (nopp a).
Proof. destruct a, b; cbn; auto. intros; lra. Qed.

Lemma round64_pos (q : Q) : 0 < q -> round64 q = clamp (round_pos (Qred q)).
Proof.
  intros H. unfold round64.
  destruct (Qcompare (Qred q) 0) eqn:C; compare_facts; rewrite ?Qred_correct in C;
    [lra | lra | reflexivity].
Qed.

Lemma round64_neg (q : Q) : q < 0 -> round64 q = nopp (clamp (round_pos (- Qred q))).
Proof.
  intros H. unfold round64.
  destruct (Qcompare (Qred q) 0) eqn:C; compare_facts; rewrite ?Qred_correct in C;
    [lra | reflexivity | lra].
Qed.

Lemma round64_zero (q : Q) : q == 0 -> round64 q = Fin 0.
Proof.
  intros H. unfold round64.
  destruct (Qcompare (Qred q) 0) eqn:C; compare_facts; rewrite ?Qred_correct in C;
    [reflexivity | lra | lra].
Qed.

Lemma round64_nonneg (q : Q) : 0 <= q -> nle (Fin 0) (round64 q).
Proof.
  intros H. destruct (Qlt_le_dec 0 q) as [P | Z].
  - rewrite (round64_pos q P). apply clamp_nonneg, round_pos_nonneg.
    rewrite Qred_correct. lra.
  - rewrite (round64_zero q) by lra. cbn. lra.
Qed.

Lemma round64_nonpos (q : Q) : q <= 0 -> nle (round64 q) (Fin 0).
Proof.
  intros H. destruct (Qlt_le_dec q 0) as [N | Z].
  - rewrite (round64_neg q N).
    change (Fin 0) with (nopp (Fin (- 0))).
    apply nle_nopp. apply (nle_trans _ (Fin 0)); [cbn; lra|].
    apply clamp_nonneg, round_pos_nonneg. rewrite Qred_correct. lra.
  - rewrite (round64_zero q) by lra. cbn. lra.
Qed.

(** Rounding keeps the order. *)
Lemma round64_mono (x y : Q) : x <= y -> nle (round64 x) (round64 y).
Proof.
  intros H. destruct (Qlt_le_dec 0 x) as [Px | Nx].
  - rewrite (round64_pos x Px), (round64_pos y) by lra.
    apply clamp_mono, round_pos_mono; rewrite !Qred_correct; lra.
  - destruct (Qlt_le_dec y 0) as [Ny | Py].
    + rewrite (round64_neg x), (round64_neg y) by lra.
      apply nle_nopp, clamp_mono, round_pos_mono; rewrite !Qred_correct; lra.
    + apply (nle_trans _ (Fin 0)); [apply round64_nonpos | apply round64_nonneg]; lra.
Qed.

Lemma scaled_lt (q : Q) : 0 < q -> q / 2 ^ expo q < 2 ^ 53.
Proof.
  intros Hq. destruct (ilog2_spec q Hq) as [_ S2].
  set (e := expo q). assert (He : (ilog2 q - 52 <= e)%Z) by (unfold e, expo; lia).
  pose proof (pow2_le (ilog2 q + 1) (53 + e) ltac:(lia)) as L.
  rewrite (pow2_plus 53 e) in L. pose proof (scaled_eq q e) as S. pose proof (pow2_pos e).
  apply Qnot_le_lt. intros C.
  assert (M : 2 ^ 53 * 2 ^ e <= (q / 2 ^ e) * 2 ^ e) by (apply Qmult_le_compat_r; lra).
  set (c := 2 ^ 53) in *. lra.
Qed.

(** The result of a rounding is left as it is by a second rounding. *)
Lemma round_pos_idem (q : Q) :
  0 < q -> 0 < round_pos q -> round_pos (round_pos q) == round_pos q.
Proof.
  intros Hq Hr. pose proof (scaled_lt q Hq) as Hs.
  assert (Hm : (rnd_even (q / 2 ^ expo q) <= 2 ^ 53)%Z).
  { rewrite <- (rnd_even_Z (2 ^ 53)). apply rnd_even_mono.
    rewrite <- pow2_nonneg_Z by lia. lra. }
  pose proof (expo_ge q) as He.
  unfold round_pos at 2 3. unfold round_pos in Hr.
  set (m := rnd_even (q / 2 ^ expo q)) in *. set (e := expo q) in *.
  pose proof (pow2_pos e) as Pe.
  assert (Hm0 : (0 < m)%Z).
  { rewrite Zlt_Qlt. change (inject_Z 0) with 0. apply Qnot_le_lt. intros C. nra. }
  destruct (Z.eq_dec m (2 ^ 53)%Z) as [Emax | Nmax].
  - assert (E : inject_Z m * 2 ^ e == inject_Z (2 ^ 52) * 2 ^ (e + 1)).
    { rewrite Emax, pow2_succ. change (inject_Z (2 ^ 53)) with (2 * inject_Z (2 ^ 52)). ring. }
    rewrite (round_pos_comp _ _ Hr E), E.
    apply round_pos_fixed; lia.
  - apply round_pos_fixed; lia.
Qed.

Lemma clamp_comp (a b : Q) : a == b -> clamp a = clamp b.
Proof.
  intros H. unfold clamp. rewrite (Qred_complete _ _ H).
  destruct (Qle_bool (2 ^ 1024) a) eqn:A; destruct (Qle_bool (2 ^ 1024) b) eqn:B;
    try reflexivity.
  - apply Qle_bool_iff in A. rewrite H in A. apply Qle_bool_iff in A. congruence.
  - apply Qle_bool_iff in B. rewrite <- H in B. apply Qle_bool_iff in B. congruence.
Qed.

Lemma clamp_Fin (a r : Q) : clamp a = Fin r -> r == a /\ a < 2 ^ 1024.
Proof.
  unfold clamp. destruct (Qle_bool (2 ^ 1024) a) eqn:A; [discriminate|].
  intros H. assert (E : r = Qred a) by congruence. split.
  - rewrite E. apply Qred_correct.
  - apply Qnot_le_lt. intros C. apply Qle_bool_iff in C. congruence.
Qed.

Lemma num_eq_refl (a : number) : a =n= a.
Proof. destruct a; cbn; auto. reflexivity. Qed.

Lemma num_eq_trans (a b c : number) : a =n= b -> b =n= c -> a =n= c.
Proof. destruct a, b, c; cbn; try tauto. intros H1 H2. now rewrite H1. Qed.

Lemma num_eq_nopp (a b : number) : a =n= b -> nopp a =n= nopp b.
Proof. destruct a, b; cbn; try tauto. intros H. now rewrite H. Qed.

Lemma double_of_round_pos (p : Q) :
  0 < p -> round_pos p < 2 ^ 1024 -> round64 (round_pos p) =n= Fin (round_pos p).
Proof.
  intros Hp Hb. pose proof (round_pos_nonneg p ltac:(lra)) as R0.
  destruct (Qlt_le_dec 0 (round_pos p)) as [Rp | Rz].
  - rewrite (round64_pos _ Rp).
    assert (E : Qred (round_pos p) == round_pos p) by apply Qred_correct.
    assert (Hpos : 0 < Qred (round_pos p)) by (rewrite E; exact Rp).
    pose proof (round_pos_comp _ _ Hpos E) as C.
    rewrite (round_pos_idem p Hp Rp) in C.
    rewrite (clamp_comp _ _ C). unfold clamp.
    destruct (Qle_bool (2 ^ 1024) (round_pos p)) eqn:B.
    + apply Qle_bool_iff in B. lra.
    + cbn [num_eq nopp]. apply Qred_correct.
  - rewrite round64_zero by lra. cbn [num_eq nopp]. lra.
Qed.

Lemma round64_opp (q : Q) : round64 (- q) =n= nopp (round64 q).
Proof.
  destruct (Q_dec q 0) as [[N | P] | Z].
  - rewrite (round64_pos (- q)) by lra. rewrite (round64_neg q N).
    assert (E : - Qred q == Qred (- q)) by (rewrite !Qred_correct; reflexivity).
    assert (Hpos : 0 < - Qred q) by (rewrite Qred_correct; lra).
    rewrite <- (clamp_comp _ _ (round_pos_comp _ _ Hpos E)).
    destruct (clamp (round_pos (- Qred q))); cbn [num_eq nopp]; auto. ring.
  - rewrite (round64_neg (- q)) by lra. rewrite (round64_pos q P).
    assert (E : - Qred (- q) == Qred q) by (rewrite !Qred_correct; ring).
    assert (Hpos : 0 < - Qred (- q)) by (rewrite !Qred_correct; lra).
    rewrite (clamp_comp _ _ (round_pos_comp _ _ Hpos E)).
    apply num_eq_refl.
  - rewrite (round64_zero (- q)) by lra. rewrite (round64_zero q Z). cbn [num_eq nopp]. reflexivity.
Qed.

(** What a rounding returns is a double. *)
Lemma round64_double (q r : Q) : round64 q = Fin r -> double r.
Proof.
  intros H. unfold double.
  destruct (Q_dec q 0) as [[N | P] | Z].
  - rewrite (round64_neg q N) in H.
    set (p := - Qred q) in *. assert (Hp : 0 < p) by (unfold p; rewrite Qred_correct; lra).
    destruct (clamp (round_pos p)) as [| |x|] eqn:C; try discriminate.
    assert (Er : r = - x) by (cbn [nopp] in H; congruence).
    destruct (clamp_Fin _ _ C) as [Ex Hb].
    assert (E : r == - round_pos p) by (rewrite Er, Ex; reflexivity).
    rewrite (round64_comp _ _ E).
    apply (num_eq_trans _ _ _ (round64_opp (round_pos p))).
    apply (num_eq_trans _ (nopp (Fin (round_pos p)))).
    + apply num_eq_nopp, double_of_round_pos; assumption.
    + cbn [num_eq nopp]. rewrite E. reflexivity.
  - rewrite (round64_pos q P) in H.
    set (p := Qred q) in *. assert (Hp : 0 < p) by (unfold p; rewrite Qred_correct; lra).
    destruct (clamp_Fin _ _ H) as [E Hb].
    rewrite (round64_comp _ _ E).
    apply (num_eq_trans _ _ _ (double_of_round_pos p Hp Hb)).
    cbn [num_eq nopp]. rewrite E. reflexivity.
  - rewrite (round64_zero q Z) in H. assert (r = 0) by congruence. subst r. reflexivity.
Qed.

(** Whole numbers up to 2^53 are doubles. *)
Lemma double_Z (z : Z) : (Z.abs z <= 2 ^ 53)%Z -> double (inject_Z z).
Proof.
  intros H. unfold double.
  assert (P : forall w, (0 < w <= 2 ^ 53)%Z -> round64 (inject_Z w) =n= Fin (inject_Z w)).
  { intros w [W0 W1].
    assert (Wq : 0 < inject_Z w) by (change 0 with (inject_Z 0); rewrite <- Zlt_Qlt; lia).
    rewrite (round64_pos _ Wq).
    assert (R : round_pos (Qred (inject_Z w)) == inject_Z w).
    { assert (Hq : 0 < Qred (inject_Z w)) by (rewrite Qred_correct; exact Wq).
      destruct (Z.eq_dec w (2 ^ 53)%Z) as [-> | Nw].
      - assert (E : Qred (inject_Z (2 ^ 53)) == inject_Z (2 ^ 52) * 2 ^ 1).
        { rewrite Qred_correct. reflexivity. }
        rewrite (round_pos_comp _ _ Hq E). rewrite round_pos_fixed by lia. reflexivity.
      - assert (E : Qred (inject_Z w) == inject_Z w * 2 ^ 0).
        { rewrite Qred_correct. change (2 ^ 0) with 1. ring. }
        rewrite (round_pos_comp _ _ Hq E). rewrite round_pos_fixed by lia.
        change (2 ^ 0) with 1. ring. }
    rewrite (clamp_comp _ _ R). unfold clamp.
    destruct (Qle_bool (2 ^ 1024) (inject_Z w)) eqn:B.
    - apply Qle_bool_iff in B.
      assert (inject_Z w <= inject_Z (2 ^ 53)) by (rewrite <- Zle_Qle; lia).
      assert (inject_Z (2 ^ 53) < 2 ^ 1024) by reflexivity. lra.
    - cbn [num_eq nopp]. apply Qred_correct. }
  destruct (Z.lt_trichotomy z 0) as [N | [-> | Pz]].
  - assert (E : inject_Z z == - inject_Z (- z)) by (rewrite inject_Z_opp; ring).
    rewrite (round64_comp _ _ E).
    apply (num_eq_trans _ _ _ (round64_opp _)).
    apply (num_eq_trans _ (nopp (Fin (inject_Z (- z))))).
    + apply num_eq_nopp, P. lia.
    + cbn [num_eq nopp]. rewrite E. reflexivity.
  - reflexivity.
  - apply P. lia.
Qed.

(** A whole number below 2^53, scaled by a power of two, is a double. *)
Lemma double_scaled (z k : Z) :
  (0 < z)%Z -> (z <= 2 ^ 53)%Z -> (-1074 <= k)%Z ->
  inject_Z z * 2 ^ k < 2 ^ 1024 ->
  double (inject_Z z * 2 ^ k).
Proof.
  intros Hz Hz53 Hk Hlt.
  assert (P : forall w j, (0 < w < 2 ^ 53)%Z -> (-1074 <= j)%Z ->
              inject_Z w * 2 ^ j < 2 ^ 1024 -> double (inject_Z w * 2 ^ j)).
  { intros w j Hw Hj Hl. pose proof (pow2_pos j) as Pj.
    assert (Wq : 0 < inject_Z w) by (change 0 with (inject_Z 0); rewrite <- Zlt_Qlt; lia).
    assert (Hpos : 0 < inject_Z w * 2 ^ j) by nra.
    pose proof (round_pos_fixed w j ltac:(lia) ltac:(lia) Hj) as F.
    unfold double. rewrite <- (round64_comp _ _ F).
    apply (num_eq_trans _ (Fin (round_pos (inject_Z w * 2 ^ j)))).
    - apply double_of_round_pos; [exact Hpos | rewrite F; exact Hl].
    - cbn [num_eq]. exact F. }
  destruct (Z.eq_dec z (2 ^ 53)%Z) as [-> | N].
  - assert (E : inject_Z (2 ^ 53) * 2 ^ k == inject_Z (2 ^ 52) * 2 ^ (k + 1)).
    { rewrite pow2_succ. change (inject_Z (2 ^ 53)) with (2 * inject_Z (2 ^ 52)). ring. }
    unfold double. rewrite (round64_comp _ _ E).
    apply (num_eq_trans _ (Fin (inject_Z (2 ^ 52) * 2 ^ (k + 1)))).
    + apply P; [lia | lia | rewrite <- E; exact Hlt].
    + cbn [num_eq]. symmetry. exact E.
  - apply P; [lia | exact Hk | exact Hlt].
Qed.

Lemma double_pow2 (k : Z) : (-1074 <= k)%Z -> (k < 1024)%Z -> double (2 ^ k).
Proof.
  intros H1 H2.
  assert (E : 2 ^ k == inject_Z 1 * 2 ^ k) by (change (inject_Z 1) with 1; ring).
  unfold double. rewrite (round64_comp _ _ E).
  apply (num_eq_trans _ (Fin (inject_Z 1 * 2 ^ k))).
  - apply double_scaled; [lia | lia | exact H1 |].
    rewrite <- E. apply pow2_lt. exact H2.
  - cbn [num_eq]. symmetry. exact E.
Qed.

(** A whole number below 2^51 plus one half is a double. *)
Lemma double_half (n : Z) : (0 <= n)%Z -> (n <= 2 ^ 51)%Z -> double (inject_Z n + (1 # 2)).
Proof.
  intros H0 H1.
  assert (E : inject_Z n + (1 # 2) == inject_Z (2 * n + 1) * 2 ^ (-1)).
  { rewrite inject_Z_plus, inject_Z_mult. change (2 ^ (-1)) with (1 # 2).
    change (inject_Z 2) with 2. change (inject_Z 1) with 1. field. }
  unfold double. rewrite (round64_comp _ _ E).
  apply (num_eq_trans _ (Fin (inject_Z (2 * n + 1) * 2 ^ (-1)))).
  - apply double_scaled; [lia | lia | lia |].
    assert (B : inject_Z (2 * n + 1) <= inject_Z (2 ^ 53)) by (rewrite <- Zle_Qle; lia).
    rewrite <- (pow2_nonneg_Z 53) in B by lia.
    pose proof (pow2_lt 53 1024 ltac:(lia)) as L.
    change (2 ^ (-1)) with (1 # 2).
    set (a := 2 ^ 53) in *. set (b := 2 ^ 1024) in *.
    assert (0 <= inject_Z (2 * n + 1)).
    { change 0 with (inject_Z 0). rewrite <- Zle_Qle. lia. }
    lra.
  - cbn [num_eq]. symmetry. exact E.
Qed.

(** The next double after a positive double of the normal range is at
    most 2^-52 above it, in relative terms. *)
Lemma double_succ (r : Q) :
  double r -> 2 ^ (-1022) <= r -> r <= 2 ^ 1023 ->
  exists s, double s /\ r < s /\ s <= r * (1 + 2 ^ (-52)).
Proof.
  intros D Lo Hi. pose proof (pow2_pos (-1022)) as P0.
  assert (Hr : 0 < r) by lra.
  assert (R : round_pos r == r).
  { unfold double in D. rewrite (round64_pos r Hr) in D.
    assert (Hq : 0 < Qred r) by (rewrite Qred_correct; exact Hr).
    rewrite (clamp_comp _ _ (round_pos_comp _ _ Hq (Qred_correct r))) in D.
    unfold clamp in D. destruct (Qle_bool (2 ^ 1024) (round_pos r)); [contradiction|].
    cbn [num_eq] in D. rewrite Qred_correct in D. exact D. }
  destruct (ilog2_spec r Hr) as [S1 S2].
  assert (Hl : (-1022 <= ilog2 r)%Z).
  { assert ((-1022 < ilog2 r + 1)%Z) by (apply pow2_lt_inv; lra). lia. }
  assert (He : expo r = (ilog2 r - 52)%Z) by (unfold expo; lia).
  unfold round_pos in R. rewrite He in R.
  set (e := (ilog2 r - 52)%Z) in *. set (z := rnd_even (r / 2 ^ e)) in *.
  pose proof (pow2_pos e) as Pe.
  assert (E1 : 2 ^ ilog2 r == 2 ^ 52 * 2 ^ e).
  { rewrite <- pow2_plus. replace (52 + e)%Z with (ilog2 r) by (unfold e; lia). reflexivity. }
  assert (E2 : 2 ^ (ilog2 r + 1) == 2 ^ 53 * 2 ^ e).
  { rewrite <- pow2_plus. replace (53 + e)%Z with (ilog2 r + 1)%Z by (unfold e; lia).
    reflexivity. }
  rewrite E1 in S1. rewrite E2 in S2.
  assert (Z1 : (2 ^ 52 <= z)%Z).
  { rewrite Zle_Qle, <- pow2_nonneg_Z by lia.
    apply Qnot_lt_le. intros C.
    assert (inject_Z z * 2 ^ e < 2 ^ 52 * 2 ^ e) by (apply Qmult_lt_compat_r; assumption).
    lra. }
  assert (Z2 : (z < 2 ^ 53)%Z).
  { rewrite Zlt_Qlt, <- pow2_nonneg_Z by lia.
    apply Qnot_le_lt. intros C.
    assert (2 ^ 53 * 2 ^ e <= inject_Z z * 2 ^ e) by (apply Qmult_le_compat_r; lra).
    lra. }
  assert (Es : inject_Z (z + 1) * 2 ^ e == r + 2 ^ e).
  { rewrite inject_Z_plus. change (inject_Z 1) with 1. rewrite <- R. ring. }
  assert (Hs : r + 2 ^ e <= r * (1 + 2 ^ (-52))).
  { assert (U : 2 ^ 52 * 2 ^ (-52) == 1) by reflexivity.
    assert (B : 2 ^ 52 * 2 ^ e <= r) by exact S1.
    assert (V : 0 < 2 ^ (-52)) by apply pow2_pos.
    assert (W : (2 ^ 52 * 2 ^ e) * 2 ^ (-52) <= r * 2 ^ (-52)).
    { apply Qmult_le_compat_r; lra. }
    assert (X : (2 ^ 52 * 2 ^ e) * 2 ^ (-52) == 2 ^ e).
    { transitivity ((2 ^ 52 * 2 ^ (-52)) * 2 ^ e); [ring|]. rewrite U. ring. }
    rewrite X in W. set (u := 2 ^ (-52)) in *. lra. }
  exists (inject_Z (z + 1) * 2 ^ e). split; [|split].
  - apply double_scaled; [lia | lia | unfold e; lia |].
    rewrite Es. apply Qle_lt_trans with (r * (1 + 2 ^ (-52))); [exact Hs|].
    assert (T : 2 ^ 1024 == 2 * 2 ^ 1023) by (apply (pow2_succ 1023)).
    rewrite T.
    assert (V : 1 + 2 ^ (-52) < 2) by reflexivity.
    pose proof (pow2_pos 1023) as Pb.
    set (b := 2 ^ 1023) in *. set (u := 1 + 2 ^ (-52)) in *.
    assert (r * u <= b * u) by (apply Qmult_le_compat_r; [exact Hi | unfold u; lra]).
    nra.
  - rewrite Es. lra.
  - rewrite Es. exact Hs.
Qed.

Lemma nle_num_eq_l (a b c : number) : a =n= b -> nle a c -> nle b c.
Proof.
  destruct a, b, c; cbn; auto; try tauto. intros E H. now rewrite <- E.
Qed.

Lemma nle_num_eq_r (a b c : number) : nle a b -> b =n= c -> nle a c.
Proof.
  destruct a, b, c; cbn; auto; try tauto. intros H E. now rewrite <- E.
Qed.

(** A number that rounds to a double or below stays below the next
    double. *)
Lemma round64_below_double (a r s : Q) :
  nle (round64 a) (Fin r) -> double s -> r < s -> a < s.
Proof.
  intros H D L. apply Qnot_le_lt. intros C.
  pose proof (round64_mono _ _ C) as M.
  pose proof (nle_trans _ _ _ M H) as T.
  pose proof (nle_num_eq_l _ _ _ D T) as T'. cbn [nle] in T'. lra.
Qed.

(** The rounding of a number of the normal range is a finite number of
    that range. *)
Lemma round64_normal (q : Q) :
  2 ^ (-1022) <= q -> q <= 2 ^ 1023 ->
  exists r, round64 q = Fin r /\ 2 ^ (-1022) <= r /\ r <= 2 ^ 1023.
Proof.
  intros Lo Hi.
  pose proof (round64_mono _ _ Lo) as M1.
  pose proof (round64_mono _ _ Hi) as M2.
  pose proof (double_pow2 (-1022) ltac:(lia) ltac:(lia)) as D1. unfold double in D1.
  pose proof (double_pow2 1023 ltac:(lia) ltac:(lia)) as D2. unfold double in D2.
  pose proof (nle_num_eq_l _ _ _ D1 M1) as N1.
  pose proof (nle_num_eq_r _ _ _ M2 D2) as N2.
  destruct (round64 q) as [| |r|];
    try (exfalso; exact N1); try (exfalso; exact N2).
  exists r. split; [reflexivity|]. split; [exact N1 | exact N2].
Qed.

(** * Methods that return *)

Section Returns.

Context {S : Type} (R : S -> S -> Prop).
Hypothesis R_refl : forall s, R s s.
Hypothesis R_trans : forall s1 s2 s3, R s1 s2 -> R s2 s3 -> R s1 s3.

Lemma returns_ret {A} (a : A) : returns R (ret a).
Proof. intros s. exists a, s, []. auto. Qed.

Lemma returns_emit (ev : event) : returns R (emit ev).
Proof. intros s. exists tt, s, [ev]. auto. Qed.

Lemma returns_modify (f : S -> S) :
  (forall s, R s (f s)) -> returns R (modify f).
Proof. intros H s. exists tt, (f s), []. auto. Qed.

Lemma returns_bind {A B} (m : Js S A) (k : A -> Js S B) :
  returns R m -> (forall a, returns R (k a)) -> returns R (bind m k).
Proof.
  intros Hm Hk s. destruct (Hm s) as (a & s1 & t1 & E1 & R1).
  destruct (Hk a s1) as (b & s2 & t2 & E2 & R2).
  exists b, s2, (t1 ++ t2). unfold bind. rewrite E1, E2. eauto.
Qed.

Lemma returns_get {B} (k : S -> Js S B) :
  (forall s, returns R (k s)) -> returns R (bind get k).
Proof.
  intros Hk s. destruct (Hk s s) as (b & s2 & t2 & E2 & R2).
  exists b, s2, t2. unfold bind, get. rewrite E2. auto.
Qed.

End Returns.

(** * Counting in traces *)

Lemma updates_app (t1 t2 : list event) :
  updates (t1 ++ t2) = (updates t1 + updates t2)%nat.
Proof. unfold updates. now rewrite List.filter_app, List.length_app. Qed.

Lemma draws_app (t1 t2 : list event) :
  draws (t1 ++ t2) = (draws t1 + draws t2)%nat.
Proof. unfold draws. now rewrite List.filter_app, List.length_app. Qed.

Lemma updates_cons (ev : event) (tr : list event) :
  updates (ev :: tr) = ((if is_update ev then 1 else 0) + updates tr)%nat.
Proof. unfold updates. simpl. now destruct (is_update ev). Qed.

Lemma draws_cons (ev : event) (tr : list event) :
  draws (ev :: tr) = ((if is_draw ev then 1 else 0) + draws tr)%nat.
Proof. unfold draws. simpl. now destruct (is_draw ev). Qed.

(** * The scheduler of index.js *)

Section IndexScheduler.

Variable devicePixelRatio : number.

Abbreviation renderLoop := (Index.renderLoop devicePixelRatio).
Abbreviation draw := (Index.draw devicePixelRatio).

Lemma index_draw_returns (this : Index.AG2D_state) :
  exists tr, draw this = inr (tt, this, tr) /\ updates tr = 0%nat /\ draws tr = 1%nat.
Proof.
  unfold draw, Index.clearCanvas, bind, emit, get, ret.
  destruct (negb (Index.backgroundColour this =? "transparent")%string);
    eexists; (split; [reflexivity | split; reflexivity]).
Qed.

(** A tick that does not reach the interval: the update runs, [lastUpdate]
    is stamped, nothing is drawn. *)
Lemma index_renderLoop_skip (clock : TickClock) (this : Index.AG2D_state) :
  ngt (nsub (at_timeNow clock) (Index.lastDraw this)) (Index.interval this) = false ->
  renderLoop clock this =
    inr (tt, Index.set_lastUpdate (at_lastUpdate clock) this,
         [ RequestAnimationFrame;
           AnimatorUpdate (nsub (at_timeNow clock) (Index.lastUpdate this));
           OptionsUpdate (nsub (at_timeNow clock) (Index.lastUpdate this)) ]).
Proof.
  intros H. unfold Index.renderLoop, Index.update, bind, emit, get, modify, ret.
  simpl. rewrite H. reflexivity.
Qed.

(** A tick past the interval: update, stamp, one draw, and [lastDraw]
    set from the third clock value. *)
Lemma index_renderLoop_draws (clock : TickClock) (this : Index.AG2D_state) :
  ngt (nsub (at_timeNow clock) (Index.lastDraw this)) (Index.interval this) = true ->
  exists tr,
    renderLoop clock this =
      inr (tt,
           Index.set_lastDraw
             (nsub (at_lastDraw clock)
                   (nmod (nsub (at_timeNow clock) (Index.lastDraw this))
                         (Index.interval this)))
             (Index.set_lastUpdate (at_lastUpdate clock) this),
           tr)
    /\ updates tr = 1%nat /\ draws tr = 1%nat.
Proof.
  intros H.
  destruct (index_draw_returns (Index.set_lastUpdate (at_lastUpdate clock) this))
    as (tr & Hd & Hu & Hn).
  unfold Index.renderLoop, Index.update, bind, emit, get, modify, ret.
  simpl. rewrite H. unfold bind. rewrite Hd. simpl.
  eexists. split; [reflexivity|].
  rewrite app_nil_r. cbn [app].
  rewrite !updates_cons, !draws_cons, Hu, Hn. split; reflexivity.
Qed.

End IndexScheduler.

Section IndexTicks.

Variable devicePixelRatio : number.

Abbreviation run := (Index.run devicePixelRatio).

Lemma index_run_cons_skip (clock : TickClock) (rest : list TickClock)
    (this this' : Index.AG2D_state) (trs : list (list event)) :
  ngt (nsub (at_timeNow clock) (Index.lastDraw this)) (Index.interval this) = false ->
  run rest (Index.set_lastUpdate (at_lastUpdate clock) this) = inr (this', trs) ->
  exists tr,
    run (clock :: rest) this = inr (this', tr :: trs)
    /\ updates tr = 1%nat /\ draws tr = 0%nat
    /\ In (OptionsUpdate (nsub (at_timeNow clock) (Index.lastUpdate this))) tr.
Proof.
  intros Hskip Hrest. cbn [Index.run].
  rewrite (index_renderLoop_skip _ _ _ Hskip), Hrest.
  eexists. split; [reflexivity|].
  repeat split; simpl; auto.
Qed.

Lemma index_run_cons_draws (clock : TickClock) (rest : list TickClock)
    (this this' : Index.AG2D_state) (trs : list (list event)) :
  ngt (nsub (at_timeNow clock) (Index.lastDraw this)) (Index.interval this) = true ->
  run rest
      (Index.set_lastDraw
         (nsub (at_lastDraw clock)
               (nmod (nsub (at_timeNow clock) (Index.lastDraw this))
                     (Index.interval this)))
         (Index.set_lastUpdate (at_lastUpdate clock) this)) = inr (this', trs) ->
  exists tr,
    run (clock :: rest) this = inr (this', tr :: trs)
    /\ updates tr = 1%nat /\ draws tr = 1%nat.
Proof.
  intros Hdraw Hrest. cbn [Index.run].
  destruct (index_renderLoop_draws devicePixelRatio _ _ Hdraw) as (tr & -> & Hu & Hd).
  rewrite Hrest. eauto.
Qed.

(** index.js on the ticks t0+5, t0+10, t0+15, t0+20 with a 16.67 ms
    interval, whatever the later clock values of each tick are. *)
Lemma index_skip_policy (this : Index.AG2D_state) (t0 : Q) (c1 c2 c3 c4 : TickClock) :
  Index.lastDraw this = Fin t0 ->
  Index.lastUpdate this = Fin t0 ->
  Index.interval this = Fin 16.67 ->
  at_timeNow c1 = Fin (t0 + 5) ->
  at_timeNow c2 = Fin (t0 + 10) ->
  at_timeNow c3 = Fin (t0 + 15) ->
  at_timeNow c4 = Fin (t0 + 20) ->
  exists this' tr1 tr2 tr3 tr4,
    run [c1; c2; c3; c4] this = inr (this', [tr1; tr2; tr3; tr4])
    /\ (updates tr1 = 1 /\ updates tr2 = 1 /\ updates tr3 = 1 /\ updates tr4 = 1)%nat
    /\ (draws tr1 = 0 /\ draws tr2 = 0 /\ draws tr3 = 0 /\ draws tr4 = 1)%nat
    /\ In (OptionsUpdate (Fin (t0 + 5 - t0))) tr1.
Proof.
  intros Hd Hu Hi H1 H2 H3 H4.
  set (s1 := Index.set_lastUpdate (at_lastUpdate c1) this).
  set (s2 := Index.set_lastUpdate (at_lastUpdate c2) s1).
  set (s3 := Index.set_lastUpdate (at_lastUpdate c3) s2).
  assert (G1 : ngt (nsub (at_timeNow c1) (Index.lastDraw this)) (Index.interval this) = false).
  { rewrite Hd, Hi, H1. apply ngt_Fin_false. lra. }
  assert (G2 : ngt (nsub (at_timeNow c2) (Index.lastDraw s1)) (Index.interval s1) = false).
  { cbn. rewrite Hd, Hi, H2. apply ngt_Fin_false. lra. }
  assert (G3 : ngt (nsub (at_timeNow c3) (Index.lastDraw s2)) (Index.interval s2) = false).
  { cbn. rewrite Hd, Hi, H3. apply ngt_Fin_false. lra. }
  assert (G4 : ngt (nsub (at_timeNow c4) (Index.lastDraw s3)) (Index.interval s3) = true).
  { cbn. rewrite Hd, Hi, H4. apply ngt_Fin_true. lra. }
  destruct (index_run_cons_draws c4 [] s3 _ [] G4 eq_refl) as (tr4 & E4 & U4 & D4).
  destruct (index_run_cons_skip c3 [c4] s2 _ _ G3 E4) as (tr3 & E3 & U3 & D3 & _).
  destruct (index_run_cons_skip c2 [c3; c4] s1 _ _ G2 E3) as (tr2 & E2 & U2 & D2 & _).
  destruct (index_run_cons_skip c1 [c2; c3; c4] this _ _ G1 E2) as (tr1 & E1 & U1 & D1 & I1).
  rewrite Hu, H1 in I1. cbn [nsub] in I1.
  eexists _, tr1, tr2, tr3, tr4. split; [exact E1|]. auto 10.
Qed.

End IndexTicks.

(** * The scheduler of modules/ag2d.js *)

Section Ag2dScheduler.

Variable devicePixelRatio : number.
Variables offsetWidth offsetHeight : Canvas -> number.

Abbreviation renderLoop := (Ag2d.renderLoop devicePixelRatio offsetWidth offsetHeight).
Abbreviation draw := (Ag2d.draw devicePixelRatio offsetWidth offsetHeight).
Abbreviation run := (Ag2d.run devicePixelRatio offsetWidth offsetHeight).

Lemma ag2d_draw_returns (this : Ag2d.AG2D_state) :
  exists tr, draw this = inr (tt, this, tr) /\ updates tr = 0%nat /\ draws tr = 1%nat.
Proof.
  unfold Ag2d.draw, Ag2d.clearCanvas, bind, emit, get, ret.
  destruct (negb (Ag2d.backgroundColour this =? "transparent")%string);
    eexists; (split; [reflexivity | split; reflexivity]).
Qed.

Lemma ag2d_renderLoop_skip (timeNow : number) (this : Ag2d.AG2D_state) :
  ngt (nsub timeNow (Ag2d.lastDraw this)) (Ag2d.interval this) = false ->
  renderLoop timeNow this =
    inr (tt, this,
         [ RequestAnimationFrame;
           OptionsUpdate (nsub timeNow (Ag2d.lastDraw this)) ]).
Proof.
  intros H. unfold Ag2d.renderLoop, Ag2d.update, bind, emit, get, modify, ret.
  simpl. rewrite H. reflexivity.
Qed.

Lemma ag2d_renderLoop_draws (timeNow : number) (this : Ag2d.AG2D_state) :
  ngt (nsub timeNow (Ag2d.lastDraw this)) (Ag2d.interval this) = true ->
  exists tr,
    renderLoop timeNow this =
      inr (tt,
           Ag2d.set_lastDraw
             (nsub timeNow
                   (nmod (nsub timeNow (Ag2d.lastDraw this)) (Ag2d.interval this)))
             this,
           tr)
    /\ updates tr = 1%nat /\ draws tr = 1%nat.
Proof.
  intros H.
  destruct (ag2d_draw_returns this) as (tr & Hd & Hu & Hn).
  unfold Ag2d.renderLoop, Ag2d.update, bind, emit, get, modify, ret.
  simpl. rewrite H. unfold bind. rewrite Hd. simpl.
  eexists. split; [reflexivity|].
  rewrite app_nil_r.
  rewrite !updates_cons, !draws_cons, Hu, Hn. split; reflexivity.
Qed.

Lemma ag2d_run_cons_skip (timeNow : number) (rest : list number)
    (this this' : Ag2d.AG2D_state) (trs : list (list event)) :
  ngt (nsub timeNow (Ag2d.lastDraw this)) (Ag2d.interval this) = false ->
  run rest this = inr (this', trs) ->
  exists tr,
    run (timeNow :: rest) this = inr (this', tr :: trs)
    /\ updates tr = 1%nat /\ draws tr = 0%nat.
Proof.
  intros Hskip Hrest. cbn [Ag2d.run].
  rewrite (ag2d_renderLoop_skip _ _ Hskip), Hrest.
  eexists. split; [reflexivity|]. split; reflexivity.
Qed.

Lemma ag2d_run_cons_draws (timeNow : number) (rest : list number)
    (this this' : Ag2d.AG2D_state) (trs : list (list event)) :
  ngt (nsub timeNow (Ag2d.lastDraw this)) (Ag2d.interval this) = true ->
  run rest
      (Ag2d.set_lastDraw
         (nsub timeNow
               (nmod (nsub timeNow (Ag2d.lastDraw this)) (Ag2d.interval this)))
         this) = inr (this', trs) ->
  exists tr,
    run (timeNow :: rest) this = inr (this', tr :: trs)
    /\ updates tr = 1%nat /\ draws tr = 1%nat.
Proof.
  intros Hdraw Hrest. cbn [Ag2d.run].
  destruct (ag2d_renderLoop_draws _ _ Hdraw) as (tr & -> & Hu & Hd).
  rewrite Hrest. eauto.
Qed.

(** modules/ag2d.js on the same four ticks. *)
Lemma ag2d_skip_policy (this : Ag2d.AG2D_state) (t0 : Q) :
  Ag2d.lastDraw this = Fin t0 ->
  Ag2d.interval this = Fin 16.67 ->
  exists this' tr1 tr2 tr3 tr4,
    run [Fin (t0 + 5); Fin (t0 + 10); Fin (t0 + 15); Fin (t0 + 20)] this
      = inr (this', [tr1; tr2; tr3; tr4])
    /\ (updates tr1 = 1 /\ updates tr2 = 1 /\ updates tr3 = 1 /\ updates tr4 = 1)%nat
    /\ (draws tr1 = 0 /\ draws tr2 = 0 /\ draws tr3 = 0 /\ draws tr4 = 1)%nat.
Proof.
  intros Hd Hi.
  assert (G : forall d, d <= 16.67 ->
            ngt (nsub (Fin (t0 + d)) (Ag2d.lastDraw this)) (Ag2d.interval this) = false).
  { intros d Hle. rewrite Hd, Hi. apply ngt_Fin_false. lra. }
  assert (G4 : ngt (nsub (Fin (t0 + 20)) (Ag2d.lastDraw this)) (Ag2d.interval this) = true).
  { rewrite Hd, Hi. apply ngt_Fin_true. lra. }
  destruct (ag2d_run_cons_draws _ [] this _ [] G4 eq_refl) as (tr4 & E4 & U4 & D4).
  destruct (ag2d_run_cons_skip _ _ this _ _ (G 15 ltac:(lra)) E4) as (tr3 & E3 & U3 & D3).
  destruct (ag2d_run_cons_skip _ _ this _ _ (G 10 ltac:(lra)) E3) as (tr2 & E2 & U2 & D2).
  destruct (ag2d_run_cons_skip _ _ this _ _ (G 5 ltac:(lra)) E2) as (tr1 & E1 & U1 & D1).
  eexists _, tr1, tr2, tr3, tr4. split; [exact E1|]. auto 10.
Qed.

End Ag2dScheduler.

(** * Claims about the scheduler *)

(** C1 (scheduler skip policy).  From a state with [lastDraw] and
    [lastUpdate] at [t0] and a draw interval of 16.67 ms, the ticks at
    [t0+5], [t0+10], [t0+15] and [t0+20] each call the update step once,
    and only the fourth calls [draw], once.  This holds in index.js, for
    any later clock values inside the ticks, and in modules/ag2d.js; in
    index.js the first update receives the delta [t0+5-t0]. *)
Theorem scheduler_skip_policy
    (devicePixelRatio : number) (offsetWidth offsetHeight : Canvas -> number)
    (this : Index.AG2D_state) (old : Ag2d.AG2D_state)
    (t0 : Q) (c1 c2 c3 c4 : TickClock) :
  Index.lastDraw this = Fin t0 ->
  Index.lastUpdate this = Fin t0 ->
  Index.interval this = Fin 16.67 ->
  Ag2d.lastDraw old = Fin t0 ->
  Ag2d.interval old = Fin 16.67 ->
  at_timeNow c1 = Fin (t0 + 5) ->
  at_timeNow c2 = Fin (t0 + 10) ->
  at_timeNow c3 = Fin (t0 + 15) ->
  at_timeNow c4 = Fin (t0 + 20) ->
  (exists this' tr1 tr2 tr3 tr4,
     Index.run devicePixelRatio [c1; c2; c3; c4] this
       = inr (this', [tr1; tr2; tr3; tr4])
     /\ (updates tr1 = 1 /\ updates tr2 = 1 /\ updates tr3 = 1 /\ updates tr4 = 1)%nat
     /\ (draws tr1 = 0 /\ draws tr2 = 0 /\ draws tr3 = 0 /\ draws tr4 = 1)%nat
     /\ In (OptionsUpdate (Fin (t0 + 5 - t0))) tr1)
  /\
  (exists old' tr1 tr2 tr3 tr4,
     Ag2d.run devicePixelRatio offsetWidth offsetHeight
       (List.map at_timeNow [c1; c2; c3; c4]) old
       = inr (old', [tr1; tr2; tr3; tr4])
     /\ (updates tr1 = 1 /\ updates tr2 = 1 /\ updates tr3 = 1 /\ updates tr4 = 1)%nat
     /\ (draws tr1 = 0 /\ draws tr2 = 0 /\ draws tr3 = 0 /\ draws tr4 = 1)%nat).
Proof.
  intros Hd Hu Hi Hd' Hi' H1 H2 H3 H4. split.
  - now apply index_skip_policy.
  - cbn [List.map]. rewrite H1, H2, H3, H4. now apply ag2d_skip_policy.
Qed.

Lemma scheduler_skip_policy_witness :
  (exists this' tr1 tr2 tr3 tr4,
     Index.run (Fin 2)
       [Sample.moving 105 (1 # 4); Sample.moving 110 (1 # 4);
        Sample.moving 115 (1 # 4); Sample.moving 120 (1 # 4)]
       (Sample.engine 300 150 100 16.67)
       = inr (this', [tr1; tr2; tr3; tr4])
     /\ (updates tr1 = 1 /\ updates tr2 = 1 /\ updates tr3 = 1 /\ updates tr4 = 1)%nat
     /\ (draws tr1 = 0 /\ draws tr2 = 0 /\ draws tr3 = 0 /\ draws tr4 = 1)%nat
     /\ In (OptionsUpdate (Fin (100 + 5 - 100))) tr1)
  /\
  (exists old' tr1 tr2 tr3 tr4,
     Ag2d.run (Fin 2) attr_width attr_height
       [Fin (100 + 5); Fin (100 + 10); Fin (100 + 15); Fin (100 + 20)]
       (Sample.old_engine 300 150 100 16.67)
       = inr (old', [tr1; tr2; tr3; tr4])
     /\ (updates tr1 = 1 /\ updates tr2 = 1 /\ updates tr3 = 1 /\ updates tr4 = 1)%nat
     /\ (draws tr1 = 0 /\ draws tr2 = 0 /\ draws tr3 = 0 /\ draws tr4 = 1)%nat).
Proof.
  apply (scheduler_skip_policy (Fin 2) attr_width attr_height
           (Sample.engine 300 150 100 16.67) (Sample.old_engine 300 150 100 16.67)
           100
           {| at_timeNow := Fin (100 + 5); at_lastUpdate := Fin (105 + (1 # 4));
              at_lastDraw := Fin (105 + (1 # 4) + (1 # 4)) |}
           {| at_timeNow := Fin (100 + 10); at_lastUpdate := Fin (110 + (1 # 4));
              at_lastDraw := Fin (110 + (1 # 4) + (1 # 4)) |}
           {| at_timeNow := Fin (100 + 15); at_lastUpdate := Fin (115 + (1 # 4));
              at_lastDraw := Fin (115 + (1 # 4) + (1 # 4)) |}
           {| at_timeNow := Fin (100 + 20); at_lastUpdate := Fin (120 + (1 # 4));
              at_lastDraw := Fin (120 + (1 # 4) + (1 # 4)) |});
    reflexivity.
Defined.



(** ** Drift correction *)

(** modules/ag2d.js anchors [lastDraw] to the tick's own [timeNow], and
    [lastDraw] then moves by a whole number of intervals. *)
Lemma ag2d_drift_correction
    (devicePixelRatio : number) (offsetWidth offsetHeight : Canvas -> number)
    (old : Ag2d.AG2D_state) (now last iv : Q) :
  Ag2d.lastDraw old = Fin last ->
  Ag2d.interval old = Fin iv ->
  iv < now - last ->
  ~ iv == 0 ->
  exists old' tr (next : Q) (k : Z),
    Ag2d.renderLoop devicePixelRatio offsetWidth offsetHeight (Fin now) old
      = inr (tt, old', tr)
    /\ draws tr = 1%nat
    /\ Ag2d.lastDraw old'
         = nsub (Fin now) (nmod (nsub (Fin now) (Ag2d.lastDraw old)) (Ag2d.interval old))
    /\ Ag2d.lastDraw old' = Fin next
    /\ next - last == inject_Z k * iv.
Proof.
  intros Hd Hi Hgt Hnz.
  destruct (ag2d_renderLoop_draws devicePixelRatio offsetWidth offsetHeight (Fin now) old)
    as (tr & E & _ & D).
  { rewrite Hd, Hi. apply ngt_Fin_true. exact Hgt. }
  eexists _, tr, _, (Qtrunc ((now - last) / iv)).
  split; [exact E|]. split; [exact D|]. split; [reflexivity|].
  cbn [Ag2d.lastDraw Ag2d.set_lastDraw]. rewrite Hd, Hi.
  cbn [nsub]. rewrite (nmod_Fin _ _ Hnz). cbn [nsub].
  split; [reflexivity|]. ring.
Qed.

(** index.js takes a new clock value for [lastDraw]: when the tick draws,
    [lastDraw] moves by a whole number of intervals plus the time the
    clock moved on since [timeNow]. *)
Lemma index_drift_correction
    (devicePixelRatio : number) (this : Index.AG2D_state)
    (clock : TickClock) (now later last iv : Q) :
  at_timeNow clock = Fin now ->
  at_lastDraw clock = Fin later ->
  Index.lastDraw this = Fin last ->
  Index.interval this = Fin iv ->
  iv < now - last ->
  ~ iv == 0 ->
  exists this' tr (next : Q) (k : Z),
    Index.renderLoop devicePixelRatio clock this = inr (tt, this', tr)
    /\ draws tr = 1%nat
    /\ Index.lastDraw this'
         = nsub (at_lastDraw clock)
                (nmod (nsub (at_timeNow clock) (Index.lastDraw this)) (Index.interval this))
    /\ Index.lastDraw this' = Fin next
    /\ next - last == inject_Z k * iv + (later - now).
Proof.
  intros Hc Hl Hd Hi Hgt Hnz.
  destruct (index_renderLoop_draws devicePixelRatio clock this)
    as (tr & E & _ & D).
  { rewrite Hc, Hd, Hi. apply ngt_Fin_true. exact Hgt. }
  eexists _, tr, _, (Qtrunc ((now - last) / iv)).
  split; [exact E|]. split; [exact D|]. split; [reflexivity|].
  cbn [Index.lastDraw Index.set_lastDraw]. rewrite Hc, Hl, Hd, Hi.
  cbn [nsub]. rewrite (nmod_Fin _ _ Hnz). cbn [nsub].
  split; [reflexivity|]. ring.
Qed.

(** C2 (drift correction), at index.js: last draw at 0, interval 10 ms, a
    tick that reads the clock at 25 and, after drawing, at 27.  The tick
    draws and stores 22 in [lastDraw]; [now - (drawDelta mod interval)]
    is 20, and 22 is no whole multiple of the interval away from 0. *)
Theorem index_drift_correction_rereads_clock :
  exists this' tr,
    Index.renderLoop (Fin 1) (Sample.moving 25 1) (Sample.engine 300 150 0 10)
      = inr (tt, this', tr)
    /\ draws tr = 1%nat
    /\ at_timeNow (Sample.moving 25 1) = Fin 25
    /\ at_lastDraw (Sample.moving 25 1) =n= Fin 27
    /\ Index.lastDraw this' =n= Fin 22
    /\ nsub (Fin 25)
            (nmod (nsub (Fin 25) (Index.lastDraw (Sample.engine 300 150 0 10)))
                  (Index.interval (Sample.engine 300 150 0 10)))
       =n= Fin 20
    /\ ~ (Index.lastDraw this'
            =n= nsub (Fin 25)
                     (nmod (nsub (Fin 25) (Index.lastDraw (Sample.engine 300 150 0 10)))
                           (Index.interval (Sample.engine 300 150 0 10))))
    /\ forall k : Z,
         ~ (nsub (Index.lastDraw this') (Index.lastDraw (Sample.engine 300 150 0 10))
              =n= nmul (Fin (inject_Z k)) (Index.interval (Sample.engine 300 150 0 10))).
Proof.
  eexists _, _. split; [vm_compute; reflexivity|].
  split; [reflexivity|]. split; [reflexivity|]. split; [reflexivity|].
  split; [reflexivity|]. split; [reflexivity|].
  split.
  - vm_compute. discriminate.
  - intros k. cbn. unfold Qeq. cbn. lia.
Qed.

(** * The viewport fit of index.js *)

Lemma fmul_Fin (x y : Q) : fmul (Fin x) (Fin y) = round64 (x * y).
Proof. reflexivity. Qed.

Lemma fdiv_Fin (x y : Q) : ~ y == 0 -> fdiv (Fin x) (Fin y) = round64 (x / y).
Proof. intros H. unfold fdiv. now rewrite (ndiv_Fin _ _ H). Qed.

Lemma ngt_irrefl (a : number) : ngt a a = false.
Proof.
  destruct a; cbn; auto. apply negb_false_iff, Qle_bool_iff, Qle_refl.
Qed.

Lemma ngt_false_of_nle (a b : number) : nle a b -> ngt a b = false.
Proof.
  destruct a, b; cbn; auto; try tauto.
  intros H. now apply negb_false_iff, Qle_bool_iff.
Qed.

Lemma ngt_false_nle (a : number) (r : Q) :
  nle (Fin 0) a -> ngt a (Fin r) = false -> nle a (Fin r).
Proof.
  destruct a as [| |x|]; cbn; try tauto; try discriminate.
  intros _ H. now apply negb_false_iff, Qle_bool_iff in H.
Qed.

Section ViewportFit.

Variable devicePixelRatio : number.
Variable getBoundingClientRect : Canvas -> DOMRect.

Abbreviation resizeCanvas := (Index.resizeCanvas devicePixelRatio getBoundingClientRect).

(** [resizeCanvas] in one step: it always returns, calls nothing outside,
    and writes every field of the transform. *)
Lemma index_resizeCanvas_returns (w h : number) (this : Index.AG2D_state) :
  let destRatio := fdiv (width (Index.size this)) (height (Index.size this)) in
  let wide := ngt (fdiv w h) destRatio in
  let w' := if wide then Math_floor (fmul h destRatio) else w in
  let h' := if wide then h else Math_floor (fdiv w destRatio) in
  let c' := {| attr_height := Math_round (fmul h' devicePixelRatio);
               attr_width := Math_round (fmul w' devicePixelRatio);
               style_height := px h';
               style_width := px w' |} in
  resizeCanvas w h this =
    inr (tt,
         {| Index.canvas := c';
            Index.options :=
              {| uc_options := uc_options (Index.options this);
                 uc_ratio := Some (fdiv w' (width (Index.size this)));
                 uc_canvasBounds := Some (getBoundingClientRect c') |};
            Index.fps := Index.fps this;
            Index.waitForAssets := Index.waitForAssets this;
            Index.backgroundColour := Index.backgroundColour this;
            Index.size := Index.size this;
            Index.lastUpdate := Index.lastUpdate this;
            Index.lastDraw := Index.lastDraw this;
            Index.interval := Index.interval this;
            Index.ratio := Some (fdiv w' (width (Index.size this)));
            Index.canvasBounds := Some (getBoundingClientRect c') |},
         []).
Proof. reflexivity. Qed.

End ViewportFit.

(** C8 (idempotent fit).  A second [resizeCanvas] with the same container
    width and height returns the state the first one left, field for
    field: ratio, canvas attributes, CSS size and bounds. *)
Theorem resizeCanvas_idempotent
    (devicePixelRatio : number) (getBoundingClientRect : Canvas -> DOMRect)
    (w h : number) (this : Index.AG2D_state) :
  exists this1,
    Index.resizeCanvas devicePixelRatio getBoundingClientRect w h this
      = inr (tt, this1, [])
    /\ Index.resizeCanvas devicePixelRatio getBoundingClientRect w h this1
      = inr (tt, this1, []).
Proof.
  eexists. split.
  - apply index_resizeCanvas_returns.
  - rewrite index_resizeCanvas_returns. reflexivity.
Qed.

(** The code on two sizes where the rounding of the double decides the
    pixel: logical 435 by 100 in a container of 1000 by 100 gets the
    width floor(434.99999999999994) = 434, and a canvas of 100 by 127
    fitted to its own size gets the height floor(126.99999999999999) =
    126. *)
Lemma resizeCanvas_floors_the_double :
  (exists this',
     Index.resizeCanvas (Fin 1) Sample.flat_layout (Fin 1000) (Fin 100)
       (Sample.engine 435 100 0 20) = inr (tt, this', [])
     /\ style_width (Index.canvas this') = px (Fin 434)
     /\ style_height (Index.canvas this') = px (Fin 100))
  /\
  (exists this',
     Index.resizeCanvas (Fin 1) Sample.flat_layout (Fin 100) (Fin 127)
       (Sample.engine 100 127 0 20) = inr (tt, this', [])
     /\ style_width (Index.canvas this') = px (Fin 100)
     /\ style_height (Index.canvas this') = px (Fin 126)).
Proof.
  split; eexists; (split; [apply index_resizeCanvas_returns|]);
    split; vm_compute; reflexivity.
Qed.

Section PositiveFit.

Variable getBoundingClientRect : Canvas -> DOMRect.
Variables (cw ch lw lh d : Q).
Hypothesis cw_pos : 0 < cw.
Hypothesis ch_pos : 0 < ch.
Hypothesis lw_pos : 0 < lw.
Hypothesis lh_pos : 0 < lh.

Lemma logical_ratio_pos : 0 < lw / lh.
Proof. apply Qlt_shift_div_l; lra. Qed.

Lemma container_ratio_pos : 0 < cw / ch.
Proof. apply Qlt_shift_div_l; lra. Qed.

Lemma wide_iff : lw / lh < cw / ch <-> ch / lh < cw / lw.
Proof.
  assert (E1 : (lw / lh) * lh == lw) by (field; lra).
  assert (E2 : (cw / ch) * ch == cw) by (field; lra).
  assert (E3 : (ch / lh) * lh == ch) by (field; lra).
  assert (E4 : (cw / lw) * lw == cw) by (field; lra).
  split; intros H.
  - apply Qnot_le_lt. intros C. nra.
  - apply Qnot_le_lt. intros C. nra.
Qed.

(** The fit on positive finite sizes: the two ratios are the rounded
    quotients, and the fitted sizes are written to the style as they
    are. *)
Lemma index_fit_positive (this : Index.AG2D_state) :
  Index.size this = {| width := Fin lw; height := Fin lh |} ->
  let wide := ngt (round64 (cw / ch)) (round64 (lw / lh)) in
  let fitWidth :=
    if wide then Math_floor (fmul (Fin ch) (round64 (lw / lh))) else Fin cw in
  let fitHeight :=
    if wide then Fin ch else Math_floor (fdiv (Fin cw) (round64 (lw / lh))) in
  exists this',
    Index.resizeCanvas (Fin d) getBoundingClientRect (Fin cw) (Fin ch) this
      = inr (tt, this', [])
    /\ Index.ratio this' = Some (fdiv fitWidth (Fin lw))
    /\ Index.canvas this' =
         {| attr_height := Math_round (fmul fitHeight (Fin d));
            attr_width := Math_round (fmul fitWidth (Fin d));
            style_height := px fitHeight;
            style_width := px fitWidth |}.
Proof.
  intros Hsize wide fitWidth fitHeight.
  eexists. split; [apply index_resizeCanvas_returns|].
  cbn [Index.ratio Index.canvas]. rewrite Hsize. cbn [width height].
  rewrite (fdiv_Fin lw lh) by lra.
  rewrite (fdiv_Fin cw ch) by lra.
  split; reflexivity.
Qed.

(** When the code finds the container the wider one, the container is
    wider than the rounded logical ratio, and the cropped width is a
    whole number that does not exceed the width of the container. *)
Lemma index_crop_width_fits :
  double cw ->
  ngt (round64 (cw / ch)) (round64 (lw / lh)) = true ->
  exists n : Z,
    Math_floor (fmul (Fin ch) (round64 (lw / lh))) = Fin (inject_Z n)
    /\ inject_Z n <= cw.
Proof.
  intros Hcw Hwide.
  pose proof logical_ratio_pos as Hr.
  pose proof (round64_nonneg (lw / lh) ltac:(lra)) as Hnn.
  destruct (round64 (lw / lh)) as [| |r|] eqn:Er;
    try (cbn in Hnn; contradiction);
    try (destruct (round64 (cw / ch)); discriminate).
  pose proof (round64_double _ _ Er) as Dr.
  cbn [nle] in Hnn.
  assert (Hgt : r < cw / ch).
  { apply Qnot_le_lt. intros C.
    pose proof (round64_mono _ _ C) as M.
    pose proof (nle_num_eq_r _ _ _ M Dr) as M'.
    rewrite (ngt_false_of_nle _ _ M') in Hwide. discriminate. }
  assert (E2 : (cw / ch) * ch == cw) by (field; lra).
  assert (Hprod : ch * r <= cw) by nra.
  rewrite fmul_Fin.
  pose proof (round64_mono _ _ Hprod) as M.
  pose proof (nle_num_eq_r _ _ _ M Hcw) as M'.
  pose proof (round64_nonneg (ch * r) ltac:(nra)) as Pnn.
  destruct (round64 (ch * r)) as [| |p|]; try (cbn in M'; contradiction);
    try (cbn in Pnn; contradiction).
  cbn [nle] in M'. exists (Qfloor p). split; [reflexivity|].
  pose proof (Qfloor_le p). lra.
Qed.

(** When the code does not find the container the wider one, and the
    container height is a whole number of pixels, the cropped height is
    a whole number that does not exceed the height of the container:
    the quotient can pass the height by two units in the last place, and
    the floor takes them away. *)
Lemma index_crop_height_fits (n : Z) :
  ch == inject_Z n -> (n <= 2 ^ 51)%Z ->
  2 ^ (-1022) <= lw / lh -> lw / lh <= 2 ^ 1023 ->
  ngt (round64 (cw / ch)) (round64 (lw / lh)) = false ->
  exists k : Z,
    Math_floor (fdiv (Fin cw) (round64 (lw / lh))) = Fin (inject_Z k)
    /\ inject_Z k <= ch.
Proof.
  intros Hn Hn51 Lo Hi Hnarrow.
  destruct (round64_normal _ Lo Hi) as (r & Er & Rlo & Rhi).
  rewrite Er in Hnarrow. rewrite Er.
  pose proof (pow2_pos (-1022)) as P0.
  assert (Hr : 0 < r) by (set (p := 2 ^ (-1022)) in *; lra).
  pose proof (round64_double _ _ Er) as Dr.
  destruct (double_succ r Dr Rlo Rhi) as (s & Ds & Hrs & Hs).
  pose proof container_ratio_pos as Ha.
  pose proof (ngt_false_nle _ _ (round64_nonneg (cw / ch) ltac:(lra)) Hnarrow) as Hle.
  pose proof (round64_below_double _ _ _ Hle Ds Hrs) as Hlt.
  assert (Hn0 : (0 <= n)%Z).
  { rewrite Zle_Qle. change (inject_Z 0) with 0. lra. }
  assert (Hq : cw / r <= inject_Z n + (1 # 2)).
  { assert (E2 : (cw / ch) * ch == cw) by (field; lra).
    assert (U : 2 ^ (-52) * inject_Z n <= 1 # 2).
    { assert (B : inject_Z n <= inject_Z (2 ^ 51)) by (rewrite <- Zle_Qle; exact Hn51).
      assert (V : 2 ^ (-52) * inject_Z (2 ^ 51) == 1 # 2) by reflexivity.
      pose proof (pow2_pos (-52)) as Pu.
      rewrite <- V. rewrite !(Qmult_comm (2 ^ (-52))).
      apply Qmult_le_compat_r; lra. }
    set (u := 2 ^ (-52)) in *.
    assert (L1 : cw / ch < r * (1 + u)) by lra.
    assert (L2 : (cw / ch) * ch < (r * (1 + u)) * ch).
    { apply Qmult_lt_compat_r; assumption. }
    rewrite E2 in L2.
    assert (L3 : cw / r < (1 + u) * ch).
    { apply Qlt_shift_div_r; [exact Hr|]. lra. }
    rewrite Hn in L3. lra. }
  rewrite (fdiv_Fin cw r) by lra.
  pose proof (round64_mono _ _ Hq) as M.
  pose proof (double_half n Hn0 Hn51) as Dh. unfold double in Dh.
  pose proof (nle_num_eq_r _ _ _ M Dh) as M'.
  assert (Hnn : 0 <= cw / r) by (apply Qle_shift_div_l; lra).
  pose proof (round64_nonneg (cw / r) Hnn) as Pnn.
  destruct (round64 (cw / r)) as [| |p|];
    try (exfalso; exact M'); try (exfalso; exact Pnn).
  cbn [nle] in M', Pnn. exists (Qfloor p). split; [reflexivity|].
  rewrite Hn, <- Zle_Qle.
  assert (Hlt1 : (Qfloor p < n + 1)%Z).
  { rewrite Zlt_Qlt, inject_Z_plus. change (inject_Z 1) with 1.
    pose proof (Qfloor_le p). lra. }
  lia.
Qed.

End PositiveFit.

(** C4 (viewport fit algorithm).  On positive sizes [resizeCanvas]
    compares the container ratio and the logical ratio, each the
    quotient rounded to a double; a wider container keeps its height and
    floors the product height * logical ratio for the width, otherwise
    it keeps its width and floors the quotient width / logical ratio for
    the height; the ratio is the fitted width over the logical width;
    the canvas attributes are the fitted sizes times the pixel density,
    rounded, and the CSS size is the fitted size itself.  Products and
    quotients are those of doubles. *)
Theorem viewport_fit_algorithm
    (getBoundingClientRect : Canvas -> DOMRect)
    (this : Index.AG2D_state) (cw ch lw lh d : Q) :
  Index.size this = {| width := Fin lw; height := Fin lh |} ->
  0 < cw -> 0 < ch -> 0 < lw -> 0 < lh -> 0 < d ->
  let containerRatio := fdiv (Fin cw) (Fin ch) in
  let logicalRatio := fdiv (Fin lw) (Fin lh) in
  exists this' (fitWidth fitHeight : number),
    Index.resizeCanvas (Fin d) getBoundingClientRect (Fin cw) (Fin ch) this
      = inr (tt, this', [])
    /\ containerRatio = round64 (cw / ch)
    /\ logicalRatio = round64 (lw / lh)
    /\ (ngt containerRatio logicalRatio = true ->
          fitHeight = Fin ch
          /\ fitWidth = Math_floor (fmul fitHeight logicalRatio))
    /\ (ngt containerRatio logicalRatio = false ->
          fitWidth = Fin cw
          /\ fitHeight = Math_floor (fdiv fitWidth logicalRatio))
    /\ Index.ratio this' = Some (fdiv fitWidth (Fin lw))
    /\ attr_width (Index.canvas this') = Math_round (fmul fitWidth (Fin d))
    /\ attr_height (Index.canvas this') = Math_round (fmul fitHeight (Fin d))
    /\ style_width (Index.canvas this') = px fitWidth
    /\ style_height (Index.canvas this') = px fitHeight.
Proof.
  intros Hsize Hcw Hch Hlw Hlh Hd containerRatio logicalRatio.
  destruct (index_fit_positive getBoundingClientRect cw ch lw lh d Hch Hlh this Hsize)
    as (this' & E & Hratio & Hcanvas).
  assert (Ec : containerRatio = round64 (cw / ch)) by (apply fdiv_Fin; lra).
  assert (El : logicalRatio = round64 (lw / lh)) by (apply fdiv_Fin; lra).
  exists this',
    (if ngt containerRatio logicalRatio
     then Math_floor (fmul (Fin ch) logicalRatio) else Fin cw),
    (if ngt containerRatio logicalRatio
     then Fin ch else Math_floor (fdiv (Fin cw) logicalRatio)).
  split; [exact E|]. split; [exact Ec|]. split; [exact El|].
  rewrite Hratio, Hcanvas. cbn [attr_width attr_height style_width style_height].
  rewrite Ec, El.
  destruct (ngt (round64 (cw / ch)) (round64 (lw / lh))).
  - split; [intros _; split; reflexivity|]. split; [discriminate|].
    repeat split; reflexivity.
  - split; [discriminate|]. split; [intros _; split; reflexivity|].
    repeat split; reflexivity.
Qed.

Lemma viewport_fit_algorithm_witness :
  let containerRatio := fdiv (Fin 1000) (Fin 100) in
  let logicalRatio := fdiv (Fin 435) (Fin 100) in
  exists this' (fitWidth fitHeight : number),
    Index.resizeCanvas (Fin 2) Sample.flat_layout (Fin 1000) (Fin 100)
      (Sample.engine 435 100 0 20)
      = inr (tt, this', [])
    /\ containerRatio = round64 (1000 / 100)
    /\ logicalRatio = round64 (435 / 100)
    /\ (ngt containerRatio logicalRatio = true ->
          fitHeight = Fin 100
          /\ fitWidth = Math_floor (fmul fitHeight logicalRatio))
    /\ (ngt containerRatio logicalRatio = false ->
          fitWidth = Fin 1000
          /\ fitHeight = Math_floor (fdiv fitWidth logicalRatio))
    /\ Index.ratio this' = Some (fdiv fitWidth (Fin 435))
    /\ attr_width (Index.canvas this') = Math_round (fmul fitWidth (Fin 2))
    /\ attr_height (Index.canvas this') = Math_round (fmul fitHeight (Fin 2))
    /\ style_width (Index.canvas this') = px fitWidth
    /\ style_height (Index.canvas this') = px fitHeight.
Proof.
  apply (viewport_fit_algorithm Sample.flat_layout (Sample.engine 435 100 0 20)
           1000 100 435 100 2); reflexivity.
Defined.




(** The container height has to be a whole number for the fitted height
    to stay inside: a container of 1.7999999999999998 by
    2.9999999999999996, both doubles, around the logical size 3 by 5 is
    not found wider, and the height becomes floor(3.0) = 3. *)
Lemma crop_height_passes_fractional_container :
  double (2026619832316723 # 1125899906842624)
  /\ double (6755399441055743 # 2251799813685248)
  /\ exists this',
       Index.resizeCanvas (Fin 1) Sample.flat_layout
         (Fin (2026619832316723 # 1125899906842624))
         (Fin (6755399441055743 # 2251799813685248))
         (Sample.engine 3 5 0 20) = inr (tt, this', [])
       /\ style_height (Index.canvas this') = px (Fin 3)
       /\ 6755399441055743 # 2251799813685248 < 3.
Proof.
  split; [vm_compute; reflexivity|]. split; [vm_compute; reflexivity|].
  eexists. split; [apply index_resizeCanvas_returns|].
  split; vm_compute; reflexivity.
Qed.

(** C7 (invalid viewport), as stated, fails: an engine of logical size
    300 by 150 with ratio 1 is resized to a container of width 0 and
    height 100.  No error is raised; the ratio becomes 0 and the canvas
    0 by 0. *)
Lemma invalid_viewport_counterexample :
  exists this',
    Index.resizeCanvas (Fin 1) Sample.flat_layout (Fin 0) (Fin 100)
      (Sample.engine 300 150 0 20)
      = inr (tt, this', [])
    /\ Index.resizeCanvas (Fin 1) Sample.flat_layout (Fin 0) (Fin 100)
         (Sample.engine 300 150 0 20)
       <> inl InvalidViewport
    /\ to_number (Index.ratio (Sample.engine 300 150 0 20)) =n= Fin 1
    /\ to_number (Index.ratio this') =n= Fin 0
    /\ attr_width (Index.canvas (Sample.engine 300 150 0 20)) =n= Fin 300
    /\ attr_width (Index.canvas this') =n= Fin 0
    /\ style_height (Index.canvas this') = px (Fin 0).
Proof.
  eexists. split; [apply index_resizeCanvas_returns|].
  split; [discriminate|]. repeat split; reflexivity.
Qed.

(** C7, amended.  With a container width or height that is not positive
    [resizeCanvas] raises no error: it returns, and the ratio, the canvas
    attributes, the CSS size and the bounds are replaced by the values
    the same steps compute from that width and height. *)
Theorem resizeCanvas_accepts_nonpositive
    (devicePixelRatio : number) (getBoundingClientRect : Canvas -> DOMRect)
    (w h : number) (this : Index.AG2D_state) :
  ngt w (Fin 0) = false \/ ngt h (Fin 0) = false ->
  let destRatio := fdiv (width (Index.size this)) (height (Index.size this)) in
  let wide := ngt (fdiv w h) destRatio in
  let w' := if wide then Math_floor (fmul h destRatio) else w in
  let h' := if wide then h else Math_floor (fdiv w destRatio) in
  exists this',
    Index.resizeCanvas devicePixelRatio getBoundingClientRect w h this
      = inr (tt, this', [])
    /\ Index.ratio this' = Some (fdiv w' (width (Index.size this)))
    /\ uc_ratio (Index.options this') = Index.ratio this'
    /\ Index.canvas this' =
         {| attr_height := Math_round (fmul h' devicePixelRatio);
            attr_width := Math_round (fmul w' devicePixelRatio);
            style_height := px h';
            style_width := px w' |}
    /\ Index.canvasBounds this' = Some (getBoundingClientRect (Index.canvas this'))
    /\ uc_canvasBounds (Index.options this') = Index.canvasBounds this'.
Proof.
  intros _ destRatio wide w' h'.
  eexists. split; [apply index_resizeCanvas_returns|].
  repeat split; reflexivity.
Qed.

Lemma resizeCanvas_accepts_nonpositive_witness :
  exists this',
    Index.resizeCanvas (Fin 2) Sample.flat_layout (Fin 640) (Fin (-480))
      (Sample.engine 300 150 0 20)
      = inr (tt, this', [])
    /\ Index.ratio this' = Some (fdiv (Fin 640) (Fin 300))
    /\ uc_ratio (Index.options this') = Index.ratio this'
    /\ Index.canvas this' =
         {| attr_height := Fin 640;
            attr_width := Fin 1280;
            style_height := px (Fin 320);
            style_width := px (Fin 640) |}
    /\ Index.canvasBounds this' = Some (Sample.flat_layout (Index.canvas this'))
    /\ uc_canvasBounds (Index.options this') = Index.canvasBounds this'.
Proof.
  apply (resizeCanvas_accepts_nonpositive (Fin 2) Sample.flat_layout
           (Fin 640) (Fin (-480)) (Sample.engine 300 150 0 20)).
  right. reflexivity.
Defined.

(** * The constructors

    Neither engine writes the frame rate or the interval after the
    constructor. *)

Lemma index_same_rate_refl (s : Index.AG2D_state) : index_same_rate s s.
Proof. split; reflexivity. Qed.

Lemma index_same_rate_trans (s1 s2 s3 : Index.AG2D_state) :
  index_same_rate s1 s2 -> index_same_rate s2 s3 -> index_same_rate s1 s3.
Proof. unfold index_same_rate. intros [? ?] [? ?]. split; congruence. Qed.

Lemma ag2d_same_rate_refl (s : Ag2d.AG2D_state) : ag2d_same_rate s s.
Proof. split; reflexivity. Qed.

Lemma ag2d_same_rate_trans (s1 s2 s3 : Ag2d.AG2D_state) :
  ag2d_same_rate s1 s2 -> ag2d_same_rate s2 s3 -> ag2d_same_rate s1 s3.
Proof. unfold ag2d_same_rate. intros [? ?] [? ?]. split; congruence. Qed.

(** Walks through a method body: binds, reads of [this], emitted calls,
    field updates and conditionals. *)
Ltac returns_steps refl trans :=
  repeat first
    [ apply returns_get; intros ?
    | apply (returns_bind _ trans); [| intros ?]
    | apply (returns_emit _ refl)
    | apply (returns_ret _ refl)
    | apply returns_modify; intros ?; split; reflexivity
    | match goal with |- returns _ (if ?b then _ else _) => destruct b end
    | match goal with |- returns _ (let _ := _ in _) => cbv zeta end ].

Section Constructors.

Variable devicePixelRatio : number.
Variable getBoundingClientRect : Canvas -> DOMRect.
Variables offsetWidth offsetHeight : Canvas -> number.

Lemma index_renderLoop_returns (clock : TickClock) :
  returns index_same_rate (Index.renderLoop devicePixelRatio clock).
Proof.
  unfold Index.renderLoop, Index.update, Index.draw, Index.clearCanvas.
  returns_steps index_same_rate_refl index_same_rate_trans.
Qed.

Lemma index_resizeCanvas_same_rate (w h : number) :
  returns index_same_rate (Index.resizeCanvas devicePixelRatio getBoundingClientRect w h).
Proof.
  unfold Index.resizeCanvas.
  returns_steps index_same_rate_refl index_same_rate_trans.
Qed.

Lemma index_init_returns (assets : option (list string)) (clock : TickClock) :
  returns index_same_rate
    (Index.init devicePixelRatio getBoundingClientRect assets clock).
Proof.
  unfold Index.init, Index.loadModules, Index.setUpCanvas, Index.inject,
    Index.bindEventListeners.
  returns_steps index_same_rate_refl index_same_rate_trans;
    auto using index_renderLoop_returns, index_resizeCanvas_same_rate.
Qed.

Lemma ag2d_renderLoop_returns (timeNow : number) :
  returns ag2d_same_rate
    (Ag2d.renderLoop devicePixelRatio offsetWidth offsetHeight timeNow).
Proof.
  unfold Ag2d.renderLoop, Ag2d.update, Ag2d.draw, Ag2d.clearCanvas.
  returns_steps ag2d_same_rate_refl ag2d_same_rate_trans.
Qed.

Lemma ag2d_init_returns (timeNow : number) :
  returns ag2d_same_rate
    (Ag2d.init devicePixelRatio offsetWidth offsetHeight timeNow).
Proof.
  unfold Ag2d.init, Ag2d.resizeCanvas, Ag2d.inject, Ag2d.bindEventListeners.
  returns_steps ag2d_same_rate_refl ag2d_same_rate_trans;
    auto using ag2d_renderLoop_returns.
Qed.

(** index.js: with an [options.options] object the constructor returns,
    and the rate is [fps || 60] with interval [1000 / fps]. *)
Lemma index_constructor_returns (canvas : Canvas) (uc : UserContent) (o : Settings)
    (now1 now2 : number) (clock : TickClock) :
  uc_options uc = Some o ->
  exists this tr,
    Index.AG2D devicePixelRatio getBoundingClientRect canvas (Some uc) now1 now2 clock
      = inr (tt, this, tr)
    /\ Index.fps this = number_or (opt_fps o) (Fin 60)
    /\ Index.interval this = ndiv (Fin 1000) (number_or (opt_fps o) (Fin 60)).
Proof.
  intros Ho. unfold Index.AG2D. cbn [object_or]. rewrite Ho.
  match goal with |- context [Index.init _ _ _ _ ?s] =>
    destruct (index_init_returns (opt_assets o) clock s) as ([] & this & tr & E & Hf & Hi)
  end.
  exists this, tr. split; [exact E|]. split; assumption.
Qed.

Lemma ag2d_constructor_returns (canvas : Canvas) (uc : UserContent) (o : Settings)
    (now0 timeNow : number) :
  uc_options uc = Some o ->
  exists this tr,
    Ag2d.AG2D devicePixelRatio offsetWidth offsetHeight canvas (Some uc) now0 timeNow
      = inr (tt, this, tr)
    /\ Ag2d.fps this = number_or (opt_fps o) (Fin 60)
    /\ Ag2d.interval this = ndiv (Fin 1000) (number_or (opt_fps o) (Fin 60)).
Proof.
  intros Ho. unfold Ag2d.AG2D. cbn [object_or]. rewrite Ho.
  match goal with |- context [Ag2d.init _ _ _ _ ?s] =>
    destruct (ag2d_init_returns timeNow s) as ([] & this & tr & E & Hf & Hi)
  end.
  exists this, tr. split; [exact E|]. split; assumption.
Qed.

End Constructors.

Lemma truthy_zero (z : Q) : z == 0 -> truthy (Fin z) = false.
Proof.
  intros H. cbn. apply negb_false_iff. now apply Qeq_bool_iff.
Qed.

Lemma truthy_nonzero (z : Q) : ~ z == 0 -> truthy (Fin z) = true.
Proof.
  intros H. cbn. now rewrite (Qeq_bool_false _ _ H).
Qed.

Lemma Qdiv_pos_neg (a b : Q) : 0 < a -> b < 0 -> a / b < 0.
Proof.
  intros Ha Hb.
  assert (E : (a / b) * b == a) by (field; lra).
  apply Qnot_le_lt. intros C. nra.
Qed.

(** C10 (falsy fps default).  Both constructors use [fps || 60]: an fps
    option of 0 raises nothing and gives fps 60 with interval 1000/60; a
    negative fps option is kept and gives a negative interval. *)
Theorem falsy_fps_default
    (devicePixelRatio : number) (getBoundingClientRect : Canvas -> DOMRect)
    (offsetWidth offsetHeight : Canvas -> number)
    (canvas : Canvas) (uc_zero uc_neg : UserContent) (o_zero o_neg : Settings)
    (zero neg : Q) (now1 now2 : number) (clock : TickClock) :
  uc_options uc_zero = Some o_zero ->
  opt_fps o_zero = Some (Fin zero) ->
  zero == 0 ->
  uc_options uc_neg = Some o_neg ->
  opt_fps o_neg = Some (Fin neg) ->
  neg < 0 ->
  (exists this tr,
     Index.AG2D devicePixelRatio getBoundingClientRect canvas (Some uc_zero)
       now1 now2 clock = inr (tt, this, tr)
     /\ Index.fps this = Fin 60
     /\ Index.interval this = Fin (1000 / 60))
  /\
  (exists this tr,
     Index.AG2D devicePixelRatio getBoundingClientRect canvas (Some uc_neg)
       now1 now2 clock = inr (tt, this, tr)
     /\ Index.fps this = Fin neg
     /\ Index.interval this = Fin (1000 / neg)
     /\ 1000 / neg < 0)
  /\
  (exists this tr,
     Ag2d.AG2D devicePixelRatio offsetWidth offsetHeight canvas (Some uc_zero)
       now2 (at_timeNow clock) = inr (tt, this, tr)
     /\ Ag2d.fps this = Fin 60
     /\ Ag2d.interval this = Fin (1000 / 60))
  /\
  (exists this tr,
     Ag2d.AG2D devicePixelRatio offsetWidth offsetHeight canvas (Some uc_neg)
       now2 (at_timeNow clock) = inr (tt, this, tr)
     /\ Ag2d.fps this = Fin neg
     /\ Ag2d.interval this = Fin (1000 / neg)
     /\ 1000 / neg < 0).
Proof.
  intros Hz Hfz Hzero Hn Hfn Hneg.
  assert (Z : number_or (opt_fps o_zero) (Fin 60) = Fin 60).
  { rewrite Hfz. cbn [number_or]. now rewrite (truthy_zero _ Hzero). }
  assert (N : number_or (opt_fps o_neg) (Fin 60) = Fin neg).
  { rewrite Hfn. cbn [number_or]. rewrite truthy_nonzero; [reflexivity | lra]. }
  assert (D : ndiv (Fin 1000) (Fin neg) = Fin (1000 / neg)) by (apply ndiv_Fin; lra).
  assert (L : 1000 / neg < 0) by (apply Qdiv_pos_neg; lra).
  split; [|split; [|split]].
  - destruct (index_constructor_returns devicePixelRatio getBoundingClientRect
                canvas uc_zero o_zero now1 now2 clock Hz) as (this & tr & E & F & I).
    rewrite Z in F, I. exists this, tr. split; [exact E|]. split; [exact F | exact I].
  - destruct (index_constructor_returns devicePixelRatio getBoundingClientRect
                canvas uc_neg o_neg now1 now2 clock Hn) as (this & tr & E & F & I).
    rewrite N in F, I. rewrite D in I. exists this, tr. auto.
  - destruct (ag2d_constructor_returns devicePixelRatio offsetWidth offsetHeight
                canvas uc_zero o_zero now2 (at_timeNow clock) Hz) as (this & tr & E & F & I).
    rewrite Z in F, I. exists this, tr. split; [exact E|]. split; [exact F | exact I].
  - destruct (ag2d_constructor_returns devicePixelRatio offsetWidth offsetHeight
                canvas uc_neg o_neg now2 (at_timeNow clock) Hn) as (this & tr & E & F & I).
    rewrite N in F, I. rewrite D in I. exists this, tr. auto.
Qed.

Lemma falsy_fps_default_witness :
  (exists this tr,
     Index.AG2D (Fin 1) Sample.flat_layout Sample.blank_canvas (Some (Sample.content Sample.zero_fps))
       (Fin 7) (Fin 8) (Sample.still 9) = inr (tt, this, tr)
     /\ Index.fps this = Fin 60
     /\ Index.interval this = Fin (1000 / 60))
  /\
  (exists this tr,
     Index.AG2D (Fin 1) Sample.flat_layout Sample.blank_canvas (Some (Sample.content Sample.negative_fps))
       (Fin 7) (Fin 8) (Sample.still 9) = inr (tt, this, tr)
     /\ Index.fps this = Fin (-30)
     /\ Index.interval this = Fin (1000 / -30)
     /\ 1000 / -30 < 0)
  /\
  (exists this tr,
     Ag2d.AG2D (Fin 1) attr_width attr_height Sample.blank_canvas (Some (Sample.content Sample.zero_fps))
       (Fin 8) (Fin 9) = inr (tt, this, tr)
     /\ Ag2d.fps this = Fin 60
     /\ Ag2d.interval this = Fin (1000 / 60))
  /\
  (exists this tr,
     Ag2d.AG2D (Fin 1) attr_width attr_height Sample.blank_canvas (Some (Sample.content Sample.negative_fps))
       (Fin 8) (Fin 9) = inr (tt, this, tr)
     /\ Ag2d.fps this = Fin (-30)
     /\ Ag2d.interval this = Fin (1000 / -30)
     /\ 1000 / -30 < 0).
Proof.
  apply (falsy_fps_default (Fin 1) Sample.flat_layout attr_width attr_height
           Sample.blank_canvas
           (Sample.content Sample.zero_fps) (Sample.content Sample.negative_fps)
           Sample.zero_fps Sample.negative_fps
           0 (-30) (Fin 7) (Fin 8) (Sample.still 9));
    reflexivity.
Defined.

(** C6 (non-positive fps is rejected), as stated, fails: with an fps
    option of 0, and with one of -30, both constructors return an engine
    and raise nothing. *)
Lemma nonpositive_fps_counterexample :
  (exists this tr,
     Index.AG2D (Fin 1) Sample.flat_layout Sample.blank_canvas (Some (Sample.content Sample.zero_fps))
       (Fin 7) (Fin 8) (Sample.still 9) = inr (tt, this, tr))
  /\ Index.AG2D (Fin 1) Sample.flat_layout Sample.blank_canvas (Some (Sample.content Sample.zero_fps))
       (Fin 7) (Fin 8) (Sample.still 9) <> inl InvalidConfiguration
  /\ Index.AG2D (Fin 1) Sample.flat_layout Sample.blank_canvas (Some (Sample.content Sample.negative_fps))
       (Fin 7) (Fin 8) (Sample.still 9) <> inl InvalidConfiguration
  /\ Ag2d.AG2D (Fin 1) attr_width attr_height Sample.blank_canvas (Some (Sample.content Sample.zero_fps))
       (Fin 8) (Fin 9) <> inl InvalidConfiguration
  /\ Ag2d.AG2D (Fin 1) attr_width attr_height Sample.blank_canvas (Some (Sample.content Sample.negative_fps))
       (Fin 8) (Fin 9) <> inl InvalidConfiguration.
Proof.
  split; [eexists _, _; vm_compute; reflexivity|].
  repeat split; vm_compute; discriminate.
Qed.

(** C6, amended.  With an fps option of 0 or below both constructors
    raise no error: they return an engine.  An fps option of 0 is
    replaced by the default 60; a negative fps option is kept as it is.
    In both cases the frame rate of the engine is a non-zero number. *)
Theorem nonpositive_fps_accepted
    (devicePixelRatio : number) (getBoundingClientRect : Canvas -> DOMRect)
    (offsetWidth offsetHeight : Canvas -> number)
    (canvas : Canvas) (uc : UserContent) (o : Settings) (f : Q)
    (now1 now2 : number) (clock : TickClock) :
  uc_options uc = Some o ->
  opt_fps o = Some (Fin f) ->
  f <= 0 ->
  (exists this tr,
     Index.AG2D devicePixelRatio getBoundingClientRect canvas (Some uc)
       now1 now2 clock = inr (tt, this, tr)
     /\ (f == 0 -> Index.fps this = Fin 60)
     /\ (f < 0 -> Index.fps this = Fin f)
     /\ exists rate : Q, Index.fps this = Fin rate /\ ~ rate == 0)
  /\
  (exists this tr,
     Ag2d.AG2D devicePixelRatio offsetWidth offsetHeight canvas (Some uc)
       now2 (at_timeNow clock) = inr (tt, this, tr)
     /\ (f == 0 -> Ag2d.fps this = Fin 60)
     /\ (f < 0 -> Ag2d.fps this = Fin f)
     /\ exists rate : Q, Ag2d.fps this = Fin rate /\ ~ rate == 0).
Proof.
  intros Ho Hf Hle.
  assert (Z : f == 0 -> number_or (opt_fps o) (Fin 60) = Fin 60).
  { intros Hz. rewrite Hf. cbn [number_or]. now rewrite (truthy_zero _ Hz). }
  assert (N : f < 0 -> number_or (opt_fps o) (Fin 60) = Fin f).
  { intros Hn. rewrite Hf. cbn [number_or].
    rewrite truthy_nonzero; [reflexivity | lra]. }
  assert (R : exists rate : Q,
            number_or (opt_fps o) (Fin 60) = Fin rate /\ ~ rate == 0).
  { destruct (Qeq_dec f 0) as [Hz | Hnz].
    - exists 60. split; [exact (Z Hz) | lra].
    - exists f. split; [apply N; lra | exact Hnz]. }
  split.
  - destruct (index_constructor_returns devicePixelRatio getBoundingClientRect
                canvas uc o now1 now2 clock Ho) as (this & tr & E & F & _).
    exists this, tr. rewrite F. auto.
  - destruct (ag2d_constructor_returns devicePixelRatio offsetWidth offsetHeight
                canvas uc o now2 (at_timeNow clock) Ho) as (this & tr & E & F & _).
    exists this, tr. rewrite F. auto.
Qed.

Lemma nonpositive_fps_accepted_witness :
  (exists this tr,
     Index.AG2D (Fin 1) Sample.flat_layout Sample.blank_canvas (Some (Sample.content Sample.negative_fps))
       (Fin 7) (Fin 8) (Sample.still 9) = inr (tt, this, tr)
     /\ (-30 == 0 -> Index.fps this = Fin 60)
     /\ (-30 < 0 -> Index.fps this = Fin (-30))
     /\ exists rate : Q, Index.fps this = Fin rate /\ ~ rate == 0)
  /\
  (exists this tr,
     Ag2d.AG2D (Fin 1) attr_width attr_height Sample.blank_canvas (Some (Sample.content Sample.negative_fps))
       (Fin 8) (Fin 9) = inr (tt, this, tr)
     /\ (-30 == 0 -> Ag2d.fps this = Fin 60)
     /\ (-30 < 0 -> Ag2d.fps this = Fin (-30))
     /\ exists rate : Q, Ag2d.fps this = Fin rate /\ ~ rate == 0).
Proof.
  apply (nonpositive_fps_accepted (Fin 1) Sample.flat_layout attr_width attr_height
           Sample.blank_canvas (Sample.content Sample.negative_fps)
           Sample.negative_fps (-30)
           (Fin 7) (Fin 8) (Sample.still 9)).
  - reflexivity.
  - reflexivity.
  - unfold Qle. simpl. lia.
Defined.

(** * The animation definition *)

Section AnimationFacts.

Import Animation.

(** A record without one of the four required fields is refused,
    whatever else it holds. *)
Lemma animation_requires (key : string) (record : gmap string value) :
  In key ["context"; "frames"; "name"; "spriteSheet"] ->
  record !! key = None ->
  Animation record = inl InvalidConfiguration.
Proof.
  intros Hkey Hnone. unfold Animation, schema. cbn [PropertyValidator type required default].
  repeat match goal with
         | |- context [record !! ?k] =>
             let E := fresh "E" in
             destruct (record !! k) as [?v|] eqn:E
         | |- context [has_type ?t ?v] => destruct (has_type t v)
         | |- inl _ = inl _ => reflexivity
         end;
    cbn [In] in Hkey; intuition (subst; congruence).
Qed.

End AnimationFacts.

(** C9 (animation definition validation).  [Animation] is the validator
    over the schema of Animation.js.  A record that gives [context],
    [frames], [name] and [spriteSheet] is accepted: an omitted [fps]
    becomes 60 and an omitted [loop] becomes [true], a given one is
    kept.  Taking any of the four required fields away, [spriteSheet]
    among them, gives [InvalidConfiguration] and no object. *)
Theorem animation_definition_validation
    (record : gmap string Animation.value)
    (context : Animation.value) (frames : list positive) (name : string)
    (spriteSheet : positive) (fps : option number) (loop : option bool) :
  record !! "context" = Some context ->
  record !! "frames" = Some (Animation.VArray frames) ->
  record !! "name" = Some (Animation.VString name) ->
  record !! "spriteSheet" = Some (Animation.VObject spriteSheet) ->
  record !! "fps" = Animation.VNumber <$> fps ->
  record !! "loop" = Animation.VBoolean <$> loop ->
  (exists obj,
     Animation.Animation record = inr obj
     /\ obj !! "fps" = Some (Animation.VNumber (default (Fin 60) fps))
     /\ obj !! "loop" = Some (Animation.VBoolean (default true loop))
     /\ obj !! "context" = Some context
     /\ obj !! "frames" = Some (Animation.VArray frames)
     /\ obj !! "name" = Some (Animation.VString name)
     /\ obj !! "spriteSheet" = Some (Animation.VObject spriteSheet))
  /\ Animation.Animation (delete "spriteSheet" record) = inl InvalidConfiguration
  /\ Animation.Animation (delete "context" record) = inl InvalidConfiguration
  /\ Animation.Animation (delete "frames" record) = inl InvalidConfiguration
  /\ Animation.Animation (delete "name" record) = inl InvalidConfiguration.
Proof.
  intros Hc Hf Hn Hs Hfps Hloop. split.
  - unfold Animation.Animation, Animation.schema.
    cbn [Animation.PropertyValidator Animation.type Animation.required Animation.default].
    rewrite Hc, Hf, Hn, Hs, Hfps, Hloop.
    destruct fps as [x|], loop as [b|]; cbn;
      (eexists; split; [reflexivity|]; repeat split; by simplify_map_eq).
  - repeat split;
      (eapply animation_requires; [| apply lookup_delete_eq]; cbn; tauto).
Qed.

Lemma animation_definition_validation_witness :
  (exists obj,
     Animation.Animation Sample.walk = inr obj
     /\ obj !! "fps" = Some (Animation.VNumber (Fin 60))
     /\ obj !! "loop" = Some (Animation.VBoolean true)
     /\ obj !! "context" = Some (Animation.VObject 1)
     /\ obj !! "frames" = Some (Animation.VArray [2; 3]%positive)
     /\ obj !! "name" = Some (Animation.VString "walk")
     /\ obj !! "spriteSheet" = Some (Animation.VObject 4))
  /\ Animation.Animation (delete "spriteSheet" Sample.walk) = inl InvalidConfiguration
  /\ Animation.Animation (delete "context" Sample.walk) = inl InvalidConfiguration
  /\ Animation.Animation (delete "frames" Sample.walk) = inl InvalidConfiguration
  /\ Animation.Animation (delete "name" Sample.walk) = inl InvalidConfiguration.
Proof.
  apply (animation_definition_validation Sample.walk (Animation.VObject 1)
           [2; 3]%positive "walk" 4%positive None None);
    reflexivity.
Defined.

(** * Further facts about the remainder *)

Lemma Qtrunc_nonneg (q : Q) : 0 <= q -> Qtrunc q = Qfloor q.
Proof. intros H. unfold Qtrunc. apply Qle_bool_iff in H. now rewrite H. Qed.

Lemma Qtrunc_neg (q : Q) : q < 0 -> Qtrunc q = Qceiling q.
Proof.
  intros H. unfold Qtrunc. destruct (Qle_bool 0 q) eqn:E; [|reflexivity].
  apply Qle_bool_iff in E. lra.
Qed.

Lemma rem_nonneg_neg (x y : Q) :
  y < 0 -> 0 <= x -> 0 <= x - y * inject_Z (Qtrunc (x / y)).
Proof.
  intros Hy Hx.
  assert (E : (x / y) * y == x) by (field; lra).
  assert (Hq : x / y <= 0).
  { apply Qnot_lt_le. intros C. nra. }
  destruct (Qlt_le_dec (x / y) 0) as [Hneg | Hz].
  - rewrite (Qtrunc_neg _ Hneg).
    pose proof (Qle_ceiling (x / y)) as Hc. nra.
  - rewrite (Qtrunc_nonneg _ Hz).
    pose proof (Qfloor_le (x / y)) as Hl.
    pose proof (Qlt_floor (x / y)) as Hu.
    rewrite inject_Z_plus in Hu. change (inject_Z 1) with 1 in Hu.
    assert (Hf : inject_Z (Qfloor (x / y)) == 0).
    { assert (Qfloor (x / y) = 0%Z).
      { assert (x / y == 0) by lra. rewrite (Qfloor_comp _ _ H). reflexivity. }
      rewrite H. reflexivity. }
    nra.
Qed.

(** * Clocks that never run backwards *)

Lemma clock_ascends_weaken (p q : Q) (rs : list (Q * Q * Q)) :
  p <= q -> clock_ascends q rs -> clock_ascends p rs.
Proof.
  intros Hpq. destruct rs as [|r rest]; cbn; [auto|].
  intros (H1 & H2 & H3 & H4). repeat split; auto. lra.
Qed.

Lemma times_ascend_weaken (p q : Q) (ts : list Q) :
  p <= q -> times_ascend q ts -> times_ascend p ts.
Proof.
  intros Hpq. destruct ts as [|t rest]; cbn; [auto|].
  intros (H1 & H2). split; auto. lra.
Qed.

(** * Intervals that are not positive *)

Lemma nsub_NaN (a : number) : nsub a NaN = NaN.
Proof. now destruct a. Qed.

(** Once [lastDraw] is NaN no tick of index.js draws, whatever the clock
    and the interval. *)
Lemma index_run_after_NaN (devicePixelRatio : number)
    (clocks : list TickClock) (this : Index.AG2D_state) :
  Index.lastDraw this = NaN ->
  exists this' trs,
    Index.run devicePixelRatio clocks this = inr (this', trs)
    /\ List.length trs = List.length clocks
    /\ Index.lastDraw this' = NaN
    /\ draws (concat trs) = 0%nat.
Proof.
  revert this. induction clocks as [|clock rest IH]; intros this Hd.
  - exists this, []. auto.
  - assert (Hskip : ngt (nsub (at_timeNow clock) (Index.lastDraw this))
                        (Index.interval this) = false).
    { rewrite Hd, nsub_NaN. reflexivity. }
    destruct (IH (Index.set_lastUpdate (at_lastUpdate clock) this) Hd)
      as (this' & trs & Er & Hlen & Hd' & Hn).
    destruct (index_run_cons_skip devicePixelRatio _ _ _ _ _ Hskip Er)
      as (tr & E & _ & D & _).
    exists this', (tr :: trs). split; [exact E|].
    split; [cbn; now rewrite Hlen|]. split; [exact Hd'|].
    cbn [concat]. now rewrite draws_app, D, Hn.
Qed.

Lemma ag2d_run_after_NaN
    (devicePixelRatio : number) (offsetWidth offsetHeight : Canvas -> number)
    (times : list number) (old : Ag2d.AG2D_state) :
  Ag2d.lastDraw old = NaN ->
  exists trs,
    Ag2d.run devicePixelRatio offsetWidth offsetHeight times old = inr (old, trs)
    /\ List.length trs = List.length times
    /\ draws (concat trs) = 0%nat.
Proof.
  intros Hd. induction times as [|t rest IH].
  - exists []. auto.
  - assert (Hskip : ngt (nsub t (Ag2d.lastDraw old)) (Ag2d.interval old) = false).
    { rewrite Hd, nsub_NaN. reflexivity. }
    destruct IH as (trs & Er & Hlen & Hn).
    destruct (ag2d_run_cons_skip devicePixelRatio offsetWidth offsetHeight
                _ _ _ _ _ Hskip Er) as (tr & E & _ & D).
    exists (tr :: trs). split; [exact E|].
    split; [cbn; now rewrite Hlen|].
    cbn [concat]. now rewrite draws_app, D, Hn.
Qed.

(** X5 (infinite fps starves the loop).  An fps option of [Infinity] is
    kept by both constructors and gives an interval of 0.  With a zero
    interval the first tick after [lastDraw] draws once and stores NaN in
    [lastDraw] (the remainder by 0 is NaN); no later tick draws, for any
    clock. *)
Theorem infinite_fps_draws_once
    (devicePixelRatio : number) (getBoundingClientRect : Canvas -> DOMRect)
    (offsetWidth offsetHeight : Canvas -> number)
    (canvas : Canvas) (uc : UserContent) (o : Settings)
    (now1 now2 : number) (first : TickClock)
    (this : Index.AG2D_state) (old : Ag2d.AG2D_state)
    (t u v last : Q) (clocks : list TickClock) :
  uc_options uc = Some o ->
  opt_fps o = Some Infinity ->
  Index.interval this = Fin 0 ->
  Index.lastDraw this = Fin last ->
  Ag2d.interval old = Fin 0 ->
  Ag2d.lastDraw old = Fin last ->
  last < t ->
  (exists this0 tr0,
     Index.AG2D devicePixelRatio getBoundingClientRect canvas (Some uc)
       now1 now2 first = inr (tt, this0, tr0)
     /\ Index.fps this0 = Infinity
     /\ Index.interval this0 = Fin 0)
  /\
  (exists old0 tr0,
     Ag2d.AG2D devicePixelRatio offsetWidth offsetHeight canvas (Some uc)
       now2 (at_timeNow first) = inr (tt, old0, tr0)
     /\ Ag2d.fps old0 = Infinity
     /\ Ag2d.interval old0 = Fin 0)
  /\
  (exists this' tr trs,
     Index.run devicePixelRatio (tick_of (t, u, v) :: clocks) this
       = inr (this', tr :: trs)
     /\ draws tr = 1%nat
     /\ List.length trs = List.length clocks
     /\ draws (concat trs) = 0%nat
     /\ Index.lastDraw this' = NaN)
  /\
  (exists old' tr trs,
     Ag2d.run devicePixelRatio offsetWidth offsetHeight
       (Fin t :: List.map at_timeNow clocks) old
       = inr (old', tr :: trs)
     /\ draws tr = 1%nat
     /\ List.length trs = List.length clocks
     /\ draws (concat trs) = 0%nat
     /\ Ag2d.lastDraw old' = NaN).
Proof.
  intros Ho Hf Hi Hd Hi' Hd' Hlt.
  split; [|split; [|split]].
  - destruct (index_constructor_returns devicePixelRatio getBoundingClientRect
                canvas uc o now1 now2 first Ho) as (this0 & tr0 & E & F & I).
    rewrite Hf in F, I. exists this0, tr0. split; [exact E|]. split; [exact F | exact I].
  - destruct (ag2d_constructor_returns devicePixelRatio offsetWidth offsetHeight
                canvas uc o now2 (at_timeNow first) Ho) as (old0 & tr0 & E & F & I).
    rewrite Hf in F, I. exists old0, tr0. split; [exact E|]. split; [exact F | exact I].
  - assert (Hdraw : ngt (nsub (at_timeNow (tick_of (t, u, v))) (Index.lastDraw this))
                        (Index.interval this) = true).
    { cbn. rewrite Hd, Hi. apply ngt_Fin_true. lra. }
    set (this1 := Index.set_lastDraw
                    (nsub (at_lastDraw (tick_of (t, u, v)))
                          (nmod (nsub (at_timeNow (tick_of (t, u, v))) (Index.lastDraw this))
                                (Index.interval this)))
                    (Index.set_lastUpdate (at_lastUpdate (tick_of (t, u, v))) this)).
    assert (Hnan : Index.lastDraw this1 = NaN).
    { subst this1. cbn. rewrite Hd, Hi. reflexivity. }
    destruct (index_run_after_NaN devicePixelRatio clocks this1 Hnan)
      as (this' & trs & Er & Hlen & Hd1 & Hn).
    destruct (index_run_cons_draws devicePixelRatio _ _ _ _ _ Hdraw Er)
      as (tr & E & _ & D).
    exists this', tr, trs. auto.
  - assert (Hdraw : ngt (nsub (Fin t) (Ag2d.lastDraw old)) (Ag2d.interval old) = true).
    { rewrite Hd', Hi'. apply ngt_Fin_true. lra. }
    set (old1 := Ag2d.set_lastDraw
                   (nsub (Fin t) (nmod (nsub (Fin t) (Ag2d.lastDraw old)) (Ag2d.interval old)))
                   old).
    assert (Hnan : Ag2d.lastDraw old1 = NaN).
    { subst old1. cbn. rewrite Hd', Hi'. reflexivity. }
    destruct (ag2d_run_after_NaN devicePixelRatio offsetWidth offsetHeight
                (List.map at_timeNow clocks) old1 Hnan) as (trs & Er & Hlen & Hn).
    destruct (ag2d_run_cons_draws devicePixelRatio offsetWidth offsetHeight
                _ _ _ _ _ Hdraw Er) as (tr & E & _ & D).
    exists old1, tr, trs. rewrite length_map in Hlen. auto.
Qed.

Lemma infinite_fps_draws_once_witness :
  (exists this0 tr0,
     Index.AG2D (Fin 1) Sample.flat_layout Sample.blank_canvas
       (Some (Sample.content Fixture.infinite_fps))
       (Fin 7) (Fin 8) (Sample.still 9) = inr (tt, this0, tr0)
     /\ Index.fps this0 = Infinity
     /\ Index.interval this0 = Fin 0)
  /\
  (exists old0 tr0,
     Ag2d.AG2D (Fin 1) attr_width attr_height Sample.blank_canvas
       (Some (Sample.content Fixture.infinite_fps))
       (Fin 8) (Fin 9) = inr (tt, old0, tr0)
     /\ Ag2d.fps old0 = Infinity
     /\ Ag2d.interval old0 = Fin 0)
  /\
  (exists this' tr trs,
     Index.run (Fin 1) (tick_of (9, 9, 9) :: [Sample.still 30; Sample.still 500])
       (Fixture.engine_at Infinity (Fin 0) 8)
       = inr (this', tr :: trs)
     /\ draws tr = 1%nat
     /\ List.length trs = 2%nat
     /\ draws (concat trs) = 0%nat
     /\ Index.lastDraw this' = NaN)
  /\
  (exists old' tr trs,
     Ag2d.run (Fin 1) attr_width attr_height
       (Fin 9 :: [Fin 30; Fin 500]) (Fixture.old_engine_at Infinity (Fin 0) 8)
       = inr (old', tr :: trs)
     /\ draws tr = 1%nat
     /\ List.length trs = 2%nat
     /\ draws (concat trs) = 0%nat
     /\ Ag2d.lastDraw old' = NaN).
Proof.
  apply (infinite_fps_draws_once (Fin 1) Sample.flat_layout attr_width attr_height
           Sample.blank_canvas (Sample.content Fixture.infinite_fps)
           Fixture.infinite_fps (Fin 7) (Fin 8) (Sample.still 9)
           (Fixture.engine_at Infinity (Fin 0) 8)
           (Fixture.old_engine_at Infinity (Fin 0) 8)
           9 9 9 8 [Sample.still 30; Sample.still 500]);
    reflexivity.
Defined.

(** X6 (negative interval, index.js).  With a negative interval, as a
    negative fps option gives, every tick of a clock that never runs
    backwards draws: the loop is not throttled at all. *)
Theorem index_negative_interval_draws_every_tick
    (devicePixelRatio : number) (rs : list (Q * Q * Q))
    (this : Index.AG2D_state) (last iv : Q) :
  Index.lastDraw this = Fin last ->
  Index.interval this = Fin iv ->
  iv < 0 ->
  clock_ascends last rs ->
  exists this' trs,
    Index.run devicePixelRatio (List.map tick_of rs) this = inr (this', trs)
    /\ List.length trs = List.length rs
    /\ Forall (fun tr => draws tr = 1%nat) trs.
Proof.
  intros Hd Hi Hiv. revert this last Hd Hi.
  induction rs as [|[[t u] v] rest IH]; intros this last Hd Hi Hasc.
  - exists this, []. cbn. auto.
  - cbn in Hasc. destruct Hasc as (H1 & H2 & H3 & H4).
    assert (Hdraw : ngt (nsub (at_timeNow (tick_of (t, u, v))) (Index.lastDraw this))
                        (Index.interval this) = true).
    { cbn. rewrite Hd, Hi. apply ngt_Fin_true. lra. }
    set (next := v - (t - last - iv * inject_Z (Qtrunc ((t - last) / iv)))).
    set (this1 := Index.set_lastDraw
                    (nsub (at_lastDraw (tick_of (t, u, v)))
                          (nmod (nsub (at_timeNow (tick_of (t, u, v))) (Index.lastDraw this))
                                (Index.interval this)))
                    (Index.set_lastUpdate (at_lastUpdate (tick_of (t, u, v))) this)).
    assert (Hd1 : Index.lastDraw this1 = Fin next).
    { subst this1 next. cbn. rewrite Hd, Hi. cbn [nsub].
      rewrite nmod_Fin by lra. reflexivity. }
    assert (Hi1 : Index.interval this1 = Fin iv) by exact Hi.
    assert (Hnext : next <= v).
    { subst next. pose proof (rem_nonneg_neg (t - last) iv Hiv). lra. }
    destruct (IH this1 next Hd1 Hi1 (clock_ascends_weaken _ _ _ Hnext H4))
      as (this' & trs & Er & Hlen & Hall).
    destruct (index_run_cons_draws devicePixelRatio _ _ _ _ _ Hdraw Er)
      as (tr & E & _ & D).
    exists this', (tr :: trs). split; [exact E|].
    split; [cbn; now rewrite Hlen|]. constructor; assumption.
Qed.

Lemma index_negative_interval_draws_every_tick_witness :
  exists this' trs,
    Index.run (Fin 1) (List.map tick_of [(1, 1, 2); (3, 3, 3); (4, 5, 6)])
      (Fixture.engine_at (Fin (-30)) (Fin (1000 / -30)) 0) = inr (this', trs)
    /\ List.length trs = 3%nat
    /\ Forall (fun tr => draws tr = 1%nat) trs.
Proof.
  apply (index_negative_interval_draws_every_tick (Fin 1)
           [(1, 1, 2); (3, 3, 3); (4, 5, 6)]
           (Fixture.engine_at (Fin (-30)) (Fin (1000 / -30)) 0) 0 (1000 / -30)).
  - reflexivity.
  - reflexivity.
  - reflexivity.
  - cbn. repeat split; discriminate.
Defined.

(** X7 (negative interval, modules/ag2d.js).  The same for the earlier
    engine. *)
Theorem ag2d_negative_interval_draws_every_tick
    (devicePixelRatio : number) (offsetWidth offsetHeight : Canvas -> number)
    (ts : list Q) (old : Ag2d.AG2D_state) (last iv : Q) :
  Ag2d.lastDraw old = Fin last ->
  Ag2d.interval old = Fin iv ->
  iv < 0 ->
  times_ascend last ts ->
  exists old' trs,
    Ag2d.run devicePixelRatio offsetWidth offsetHeight (List.map Fin ts) old
      = inr (old', trs)
    /\ List.length trs = List.length ts
    /\ Forall (fun tr => draws tr = 1%nat) trs.
Proof.
  intros Hd Hi Hiv. revert old last Hd Hi.
  induction ts as [|t rest IH]; intros old last Hd Hi Hasc.
  - exists old, []. cbn. auto.
  - cbn in Hasc. destruct Hasc as (H1 & H2).
    assert (Hdraw : ngt (nsub (Fin t) (Ag2d.lastDraw old)) (Ag2d.interval old) = true).
    { rewrite Hd, Hi. apply ngt_Fin_true. lra. }
    set (next := t - (t - last - iv * inject_Z (Qtrunc ((t - last) / iv)))).
    set (old1 := Ag2d.set_lastDraw
                   (nsub (Fin t) (nmod (nsub (Fin t) (Ag2d.lastDraw old)) (Ag2d.interval old)))
                   old).
    assert (Hd1 : Ag2d.lastDraw old1 = Fin next).
    { subst old1 next. cbn. rewrite Hd, Hi. cbn [nsub].
      rewrite nmod_Fin by lra. reflexivity. }
    assert (Hi1 : Ag2d.interval old1 = Fin iv) by exact Hi.
    assert (Hnext : next <= t).
    { subst next. pose proof (rem_nonneg_neg (t - last) iv Hiv). lra. }
    destruct (IH old1 next Hd1 Hi1 (times_ascend_weaken _ _ _ Hnext H2))
      as (old' & trs & Er & Hlen & Hall).
    destruct (ag2d_run_cons_draws devicePixelRatio offsetWidth offsetHeight
                _ _ _ _ _ Hdraw Er) as (tr & E & _ & D).
    exists old', (tr :: trs). split; [exact E|].
    split; [cbn; now rewrite Hlen|]. constructor; assumption.
Qed.

Lemma ag2d_negative_interval_draws_every_tick_witness :
  exists old' trs,
    Ag2d.run (Fin 1) attr_width attr_height (List.map Fin [1; 3; 4])
      (Fixture.old_engine_at (Fin (-30)) (Fin (1000 / -30)) 0) = inr (old', trs)
    /\ List.length trs = 3%nat
    /\ Forall (fun tr => draws tr = 1%nat) trs.
Proof.
  apply (ag2d_negative_interval_draws_every_tick (Fin 1) attr_width attr_height
           [1; 3; 4] (Fixture.old_engine_at (Fin (-30)) (Fin (1000 / -30)) 0)
           0 (1000 / -30)).
  - reflexivity.
  - reflexivity.
  - reflexivity.
  - cbn. repeat split; discriminate.
Defined.

(** * What a tick always does *)

Lemma update_deltas_app (t1 t2 : list event) :
  update_deltas (t1 ++ t2) = update_deltas t1 ++ update_deltas t2.
Proof.
  induction t1 as [|ev rest IH]; [reflexivity|].
  destruct ev; cbn; rewrite IH; reflexivity.
Qed.

Lemma index_tick_facts
    (devicePixelRatio : number) (clock : TickClock) (this : Index.AG2D_state) :
  exists this' tr,
    Index.renderLoop devicePixelRatio clock this = inr (tt, this', tr)
    /\ List.hd_error tr = Some RequestAnimationFrame
    /\ update_deltas tr = [nsub (at_timeNow clock) (Index.lastUpdate this)]
    /\ (draws tr <= 1)%nat
    /\ Index.lastUpdate this' = at_lastUpdate clock
    /\ index_same_rate this this'
    /\ index_same_view this this'.
Proof.
  unfold Index.renderLoop, Index.update, Index.draw, Index.clearCanvas,
    bind, emit, get, modify, ret, index_same_rate, index_same_view.
  cbn.
  destruct (ngt (nsub (at_timeNow clock) (Index.lastDraw this)) (Index.interval this));
    cbn; [destruct (negb (Index.backgroundColour this =? "transparent")%string); cbn|];
    eexists _, _; (split; [reflexivity|]); cbn; repeat split; auto.
Qed.

(** X8 (one tick of index.js, any state and any clock).  [renderLoop]
    returns; it asks for the next animation frame before anything else,
    hands [timeNow - lastUpdate] to the user's [update] exactly once,
    draws at most once, stamps [lastUpdate] with the second clock value,
    and leaves the frame rate, the interval, the canvas, the ratio, the
    bounds and the logical size as they were. *)
Theorem index_tick_invariants
    (devicePixelRatio : number) (clock : TickClock) (this : Index.AG2D_state) :
  exists this' tr,
    Index.renderLoop devicePixelRatio clock this = inr (tt, this', tr)
    /\ List.hd_error tr = Some RequestAnimationFrame
    /\ update_deltas tr = [nsub (at_timeNow clock) (Index.lastUpdate this)]
    /\ (draws tr <= 1)%nat
    /\ Index.lastUpdate this' = at_lastUpdate clock
    /\ index_same_rate this this'
    /\ index_same_view this this'.
Proof. apply index_tick_facts. Qed.

Lemma ag2d_tick_facts
    (devicePixelRatio : number) (offsetWidth offsetHeight : Canvas -> number)
    (timeNow : number) (old : Ag2d.AG2D_state) :
  exists old' tr,
    Ag2d.renderLoop devicePixelRatio offsetWidth offsetHeight timeNow old
      = inr (tt, old', tr)
    /\ List.hd_error tr = Some RequestAnimationFrame
    /\ update_deltas tr = [nsub timeNow (Ag2d.lastDraw old)]
    /\ (draws tr <= 1)%nat
    /\ ag2d_same_rate old old'
    /\ ag2d_same_view old old'.
Proof.
  unfold Ag2d.renderLoop, Ag2d.update, Ag2d.draw, Ag2d.clearCanvas,
    bind, emit, get, modify, ret, ag2d_same_rate, ag2d_same_view.
  cbn.
  destruct (ngt (nsub timeNow (Ag2d.lastDraw old)) (Ag2d.interval old));
    cbn; [destruct (negb (Ag2d.backgroundColour old =? "transparent")%string); cbn|];
    eexists _, _; (split; [reflexivity|]); cbn; repeat split; auto.
Qed.

(** X9 (one tick of modules/ag2d.js, any state and any clock value).
    The earlier engine hands [timeNow - lastDraw] to [update]: the time
    since the last draw, not since the last tick. *)
Theorem ag2d_tick_invariants
    (devicePixelRatio : number) (offsetWidth offsetHeight : Canvas -> number)
    (timeNow : number) (old : Ag2d.AG2D_state) :
  exists old' tr,
    Ag2d.renderLoop devicePixelRatio offsetWidth offsetHeight timeNow old
      = inr (tt, old', tr)
    /\ List.hd_error tr = Some RequestAnimationFrame
    /\ update_deltas tr = [nsub timeNow (Ag2d.lastDraw old)]
    /\ (draws tr <= 1)%nat
    /\ ag2d_same_rate old old'
    /\ ag2d_same_view old old'.
Proof. apply ag2d_tick_facts. Qed.

(** X11 (simulated time, modules/ag2d.js).  While no tick draws, every
    [update] receives the whole time since the last draw: the deltas of
    successive ticks overlap. *)
Theorem ag2d_update_deltas_accumulate
    (devicePixelRatio : number) (offsetWidth offsetHeight : Canvas -> number)
    (ts : list Q) (old : Ag2d.AG2D_state) (last iv : Q) :
  Ag2d.lastDraw old = Fin last ->
  Ag2d.interval old = Fin iv ->
  Forall (fun t => t - last <= iv) ts ->
  exists trs,
    Ag2d.run devicePixelRatio offsetWidth offsetHeight (List.map Fin ts) old
      = inr (old, trs)
    /\ draws (concat trs) = 0%nat
    /\ update_deltas (concat trs) = List.map (fun t => Fin (t - last)) ts.
Proof.
  intros Hd Hi Hall. induction Hall as [|t rest Ht Hrest IH].
  - exists []. auto.
  - destruct IH as (trs & Er & Hn & Hdel).
    assert (Hskip : ngt (nsub (Fin t) (Ag2d.lastDraw old)) (Ag2d.interval old) = false).
    { rewrite Hd, Hi. apply ngt_Fin_false. exact Ht. }
    exists ([RequestAnimationFrame; OptionsUpdate (nsub (Fin t) (Ag2d.lastDraw old))] :: trs).
    cbn [List.map Ag2d.run].
    rewrite (ag2d_renderLoop_skip _ _ _ _ _ Hskip), Er.
    split; [reflexivity|]. cbn [concat].
    rewrite draws_app, update_deltas_app, Hn, Hdel, Hd. split; reflexivity.
Qed.

Lemma ag2d_update_deltas_accumulate_witness :
  exists trs,
    Ag2d.run (Fin 1) attr_width attr_height (List.map Fin [5; 10; 15])
      (Sample.old_engine 300 150 0 20)
      = inr (Sample.old_engine 300 150 0 20, trs)
    /\ draws (concat trs) = 0%nat
    /\ update_deltas (concat trs) = List.map (fun t => Fin (t - 0)) [5; 10; 15].
Proof.
  apply (ag2d_update_deltas_accumulate (Fin 1) attr_width attr_height [5; 10; 15]
           (Sample.old_engine 300 150 0 20) 0 20).
  - reflexivity.
  - reflexivity.
  - repeat constructor; discriminate.
Defined.

(** * More on the viewport fit *)

(** X14 (the last resize wins).  A [resizeCanvas] after another leaves the
    engine exactly as it would have alone: nothing of the earlier fit
    survives, whatever the two sizes are. *)
Theorem resizeCanvas_overwrites
    (devicePixelRatio : number) (getBoundingClientRect : Canvas -> DOMRect)
    (w1 h1 w2 h2 : number) (this : Index.AG2D_state) :
  exists this1 this2,
    Index.resizeCanvas devicePixelRatio getBoundingClientRect w1 h1 this
      = inr (tt, this1, [])
    /\ Index.resizeCanvas devicePixelRatio getBoundingClientRect w2 h2 this1
      = inr (tt, this2, [])
    /\ Index.resizeCanvas devicePixelRatio getBoundingClientRect w2 h2 this
      = inr (tt, this2, [])
    /\ Index.size this2 = Index.size this
    /\ Index.lastDraw this2 = Index.lastDraw this
    /\ Index.lastUpdate this2 = Index.lastUpdate this.
Proof.
  eexists _, _. split; [apply index_resizeCanvas_returns|].
  split; [apply index_resizeCanvas_returns|].
  split; [rewrite index_resizeCanvas_returns; reflexivity|].
  repeat split; reflexivity.
Qed.

(** X15 (resize, then draw).  After a fit, [draw] saves the context,
    scales it by one factor on both axes, the pixel density times the
    ratio of the fitted CSS width to the logical width, clears a
    rectangle of the logical size (and fills it when the background is
    not transparent), calls the user's [draw] once and restores the
    context; it leaves the engine as the fit left it. *)
Theorem draw_after_resize
    (devicePixelRatio : number) (getBoundingClientRect : Canvas -> DOMRect)
    (w h : number) (this : Index.AG2D_state) :
  exists this' (fitWidth s : number),
    Index.resizeCanvas devicePixelRatio getBoundingClientRect w h this
      = inr (tt, this', [])
    /\ style_width (Index.canvas this') = px fitWidth
    /\ s = fmul devicePixelRatio (fdiv fitWidth (width (Index.size this)))
    /\ Index.draw devicePixelRatio this' =
         inr (tt, this',
              [ContextSave; ContextScale s s;
               ContextClearRect (Fin 0) (Fin 0)
                 (width (Index.size this)) (height (Index.size this))]
              ++ (if String.eqb (Index.backgroundColour this) "transparent"
                  then []
                  else [ContextFillStyle (Index.backgroundColour this);
                        ContextFillRect (Fin 0) (Fin 0)
                          (width (Index.size this)) (height (Index.size this))])
              ++ [OptionsDraw; ContextRestore]).
Proof.
  eexists _, _, _. split; [apply index_resizeCanvas_returns|].
  cbn [Index.canvas style_width]. split; [reflexivity|]. split; [reflexivity|].
  unfold Index.draw, Index.clearCanvas, bind, emit, get, ret.
  cbn [Index.backgroundColour Index.ratio Index.size to_number].
  destruct (String.eqb (Index.backgroundColour this) "transparent"); reflexivity.
Qed.

(** * More on the constructors *)

Lemma bind_inr {S A B} (m : Js S A) (k : A -> Js S B)
    (s s1 s2 : S) (a : A) (b : B) (t1 t2 : list event) :
  m s = inr (a, s1, t1) ->
  k a s1 = inr (b, s2, t2) ->
  bind m k s = inr (b, s2, t1 ++ t2).
Proof. intros H1 H2. unfold bind. now rewrite H1, H2. Qed.

Section SetUp.

Variable devicePixelRatio : number.
Variable getBoundingClientRect : Canvas -> DOMRect.
Variables offsetWidth offsetHeight : Canvas -> number.

(** [setUpCanvas] of index.js in terms of its fit and its first tick. *)
Lemma index_setUpCanvas_steps (clock : TickClock)
    (this0 this1 this' : Index.AG2D_state) (tick : list event) :
  Index.resizeCanvas devicePixelRatio getBoundingClientRect
    (width (Index.size this0)) (height (Index.size this0)) this0
    = inr (tt, this1, []) ->
  Index.renderLoop devicePixelRatio clock this1 = inr (tt, this', tick) ->
  Index.setUpCanvas devicePixelRatio getBoundingClientRect clock this0
    = inr (tt, this',
           [AddEventListener "keydown"; AddEventListener "keyup";
            AddEventListener "resize"; OptionsInit; OptionsDraw] ++ tick).
Proof.
  intros Hfit Htick. unfold Index.setUpCanvas.
  apply (bind_inr _ _ this0 this0 this' this0 tt [] _ eq_refl).
  apply (bind_inr _ _ this0 this1 this' tt tt [] _ Hfit).
  apply (bind_inr _ _ this1 this1 this' tt tt [] _ eq_refl).
  apply (bind_inr _ _ this1 this1 this' tt tt
           [AddEventListener "keydown"; AddEventListener "keyup";
            AddEventListener "resize"] _ eq_refl).
  apply (bind_inr _ _ this1 this1 this' tt tt [OptionsInit] _ eq_refl).
  apply (bind_inr _ _ this1 this1 this' tt tt [OptionsDraw] _ eq_refl).
  exact Htick.
Qed.

(** [init] of modules/ag2d.js in terms of its first tick. *)
Lemma ag2d_init_steps (timeNow : number)
    (this0 this' : Ag2d.AG2D_state) (tick : list event) :
  Ag2d.renderLoop devicePixelRatio offsetWidth offsetHeight timeNow
    (Ag2d.set_canvas
       {| attr_height := Math_round (nmul (height (Ag2d.size this0)) devicePixelRatio);
          attr_width := Math_round (nmul (width (Ag2d.size this0)) devicePixelRatio);
          style_height := px (height (Ag2d.size this0));
          style_width := px (width (Ag2d.size this0)) |}
       this0)
    = inr (tt, this', tick) ->
  Ag2d.init devicePixelRatio offsetWidth offsetHeight timeNow this0
    = inr (tt, this',
           [AddEventListener "keydown"; AddEventListener "keyup";
            AddEventListener "resize"; OptionsInit; OptionsDraw] ++ tick).
Proof.
  intros Htick. unfold Ag2d.init.
  apply (bind_inr _ _ this0 this0 this' this0 tt [] _ eq_refl).
  eapply (bind_inr _ _ this0 _ this' tt tt [] _ eq_refl).
  apply (bind_inr _ _ _ _ this' tt tt [] _ eq_refl).
  apply (bind_inr _ _ _ _ this' tt tt
           [AddEventListener "keydown"; AddEventListener "keyup";
            AddEventListener "resize"] _ eq_refl).
  apply (bind_inr _ _ _ _ this' tt tt [OptionsInit] _ eq_refl).
  apply (bind_inr _ _ _ _ this' tt tt [OptionsDraw] _ eq_refl).
  exact Htick.
Qed.

End SetUp.

(** X16 (the constructors need [options.options]).  Called without a user
    content object, or with one that has no [options] member, both
    constructors end in a TypeError: the default [options || {}] does
    not reach the nested object, whose [fps] is read next. *)
Theorem constructor_needs_options
    (devicePixelRatio : number) (getBoundingClientRect : Canvas -> DOMRect)
    (offsetWidth offsetHeight : Canvas -> number)
    (canvas : Canvas) (options : option UserContent)
    (now1 now2 : number) (clock : TickClock) :
  options ≫= uc_options = None ->
  Index.AG2D devicePixelRatio getBoundingClientRect canvas options
    now1 now2 clock = inl TypeError
  /\ Ag2d.AG2D devicePixelRatio offsetWidth offsetHeight canvas options
       now2 (at_timeNow clock) = inl TypeError.
Proof.
  intros H. destruct options as [uc|]; cbn [mbind option_bind] in H;
    [|split; reflexivity].
  unfold Index.AG2D, Ag2d.AG2D. cbn [object_or]. rewrite H. split; reflexivity.
Qed.

Lemma constructor_needs_options_witness :
  Index.AG2D (Fin 1) Sample.flat_layout Sample.blank_canvas
    (Some Fixture.no_options) (Fin 7) (Fin 8) (Sample.still 9) = inl TypeError
  /\ Ag2d.AG2D (Fin 1) attr_width attr_height Sample.blank_canvas
       (Some Fixture.no_options) (Fin 8) (Fin 9) = inl TypeError.
Proof.
  apply (constructor_needs_options (Fin 1) Sample.flat_layout attr_width attr_height
           Sample.blank_canvas (Some Fixture.no_options)
           (Fin 7) (Fin 8) (Sample.still 9)).
  reflexivity.
Defined.

(** X17 (waiting for assets).  With [waitForAssets] set and a list of
    assets the constructor of index.js only hands the assets to the
    loader: no listener is bound, neither [init] nor [draw] of the user
    is called, no animation frame is requested and the canvas is not
    fitted; all of that is left to the loader's callback. *)
Theorem index_constructor_waits
    (devicePixelRatio : number) (getBoundingClientRect : Canvas -> DOMRect)
    (canvas : Canvas) (uc : UserContent) (o : Settings) (assets : list string)
    (now1 now2 : number) (clock : TickClock) :
  uc_options uc = Some o ->
  opt_waitForAssets o = Some true ->
  opt_assets o = Some assets ->
  exists this,
    Index.AG2D devicePixelRatio getBoundingClientRect canvas (Some uc)
      now1 now2 clock = inr (tt, this, [AddAssets; LoadAssets])
    /\ Index.canvas this = canvas
    /\ Index.ratio this = None
    /\ Index.canvasBounds this = None
    /\ Index.lastUpdate this = now1
    /\ Index.lastDraw this = now2.
Proof.
  intros Ho Hw Ha. unfold Index.AG2D. cbn [object_or]. rewrite Ho.
  unfold Index.init, Index.loadModules, bind, get, ret, emit. cbn.
  rewrite Hw, Ha. cbn. eexists. split; [reflexivity|]. repeat split.
Qed.

Lemma index_constructor_waits_witness :
  exists this,
    Index.AG2D (Fin 1) Sample.flat_layout Sample.blank_canvas
      (Some (Sample.content Fixture.waiting))
      (Fin 7) (Fin 8) (Sample.still 9) = inr (tt, this, [AddAssets; LoadAssets])
    /\ Index.canvas this = Sample.blank_canvas
    /\ Index.ratio this = None
    /\ Index.canvasBounds this = None
    /\ Index.lastUpdate this = Fin 7
    /\ Index.lastDraw this = Fin 8.
Proof.
  apply (index_constructor_waits (Fin 1) Sample.flat_layout Sample.blank_canvas
           (Sample.content Fixture.waiting) Fixture.waiting
           ["hero.png"; "tiles.png"]%string (Fin 7) (Fin 8) (Sample.still 9));
    reflexivity.
Defined.

(** X18 (order of calls in the constructor of index.js).  When it does not
    wait for assets the constructor fits the canvas to the logical size,
    binds the three listeners, calls the user's [init], then the user's
    [draw] directly (no [save], [scale] or [clearRect] before it), and
    runs the first tick before it returns; that tick hands
    [timeNow - now1] to [update]. *)
Theorem index_constructor_sequence
    (devicePixelRatio : number) (getBoundingClientRect : Canvas -> DOMRect)
    (canvas : Canvas) (uc : UserContent) (o : Settings)
    (now1 now2 : number) (clock : TickClock) :
  uc_options uc = Some o ->
  opt_waitForAssets o <> Some true \/ opt_assets o = None ->
  exists this tick,
    Index.AG2D devicePixelRatio getBoundingClientRect canvas (Some uc)
      now1 now2 clock
      = inr (tt, this,
             [AddEventListener "keydown"; AddEventListener "keyup";
              AddEventListener "resize"; OptionsInit; OptionsDraw] ++ tick)
    /\ List.hd_error tick = Some RequestAnimationFrame
    /\ update_deltas tick = [nsub (at_timeNow clock) now1]
    /\ (draws tick <= 1)%nat
    /\ Index.lastUpdate this = at_lastUpdate clock
    /\ is_Some (Index.ratio this)
    /\ Index.canvasBounds this = Some (getBoundingClientRect (Index.canvas this)).
Proof.
  intros Ho Hnowait. unfold Index.AG2D. cbn [object_or]. rewrite Ho.
  match goal with |- context [Index.init _ _ _ _ ?s] => set (this0 := s) end.
  assert (Hw : Index.waitForAssets this0 && bool_decide (is_Some (opt_assets o)) = false).
  { subst this0. cbn [Index.waitForAssets].
    destruct Hnowait as [Hw | Ha].
    - destruct (opt_waitForAssets o) as [[|]|]; cbn; congruence.
    - rewrite Ha. apply andb_false_iff. right. apply bool_decide_eq_false.
      intros [x Hx]. discriminate. }
  pose proof (index_resizeCanvas_returns devicePixelRatio getBoundingClientRect
                (width (Index.size this0)) (height (Index.size this0)) this0) as Hfit.
  cbv zeta in Hfit.
  match type of Hfit with _ = inr (_, ?s, _) => set (this1 := s) in * end.
  destruct (index_tick_facts devicePixelRatio clock this1)
    as (this & tick & Etick & Hhd & Hdel & Hdraws & Hu & _ & Hview).
  destruct Hview as (Hc & Hr & Hb & _).
  exists this, tick. split.
  - unfold Index.init, Index.loadModules.
    apply (bind_inr _ _ this0 this0 this this0 tt [] _ eq_refl).
    apply (bind_inr _ _ this0 this0 this tt tt [] _ eq_refl).
    rewrite Hw.
    apply (index_setUpCanvas_steps _ _ _ _ this1 _ _ Hfit Etick).
  - split; [exact Hhd|]. split; [exact Hdel|]. split; [exact Hdraws|].
    split; [exact Hu|]. rewrite Hr, Hb, Hc. split; [eexists; reflexivity | reflexivity].
Qed.

Lemma index_constructor_sequence_witness :
  exists this tick,
    Index.AG2D (Fin 1) Sample.flat_layout Sample.blank_canvas
      (Some (Sample.content Fixture.bare)) (Fin 7) (Fin 8) (Sample.still 9)
      = inr (tt, this,
             [AddEventListener "keydown"; AddEventListener "keyup";
              AddEventListener "resize"; OptionsInit; OptionsDraw] ++ tick)
    /\ List.hd_error tick = Some RequestAnimationFrame
    /\ update_deltas tick = [nsub (Fin 9) (Fin 7)]
    /\ (draws tick <= 1)%nat
    /\ Index.lastUpdate this = Fin 9
    /\ is_Some (Index.ratio this)
    /\ Index.canvasBounds this = Some (Sample.flat_layout (Index.canvas this)).
Proof.
  apply (index_constructor_sequence (Fin 1) Sample.flat_layout Sample.blank_canvas
           (Sample.content Fixture.bare) Fixture.bare (Fin 7) (Fin 8) (Sample.still 9)).
  - reflexivity.
  - right. reflexivity.
Defined.

(** The fit of a canvas to its own logical size: the two ratios are the
    same double, so the code keeps the width and floors the quotient
    width / (width / height) for the height. *)
Lemma index_fit_own_size
    (getBoundingClientRect : Canvas -> DOMRect)
    (this : Index.AG2D_state) (lw lh d : Q) :
  Index.size this = {| width := Fin lw; height := Fin lh |} ->
  0 < lw ->
  let fitHeight := Math_floor (fdiv (Fin lw) (fdiv (Fin lw) (Fin lh))) in
  exists this',
    Index.resizeCanvas (Fin d) getBoundingClientRect (Fin lw) (Fin lh) this
      = inr (tt, this', [])
    /\ Index.size this' = Index.size this
    /\ Index.ratio this' = Some (Fin 1)
    /\ Index.canvas this' =
         {| attr_height := Math_round (fmul fitHeight (Fin d));
            attr_width := Math_round (fmul (Fin lw) (Fin d));
            style_height := px fitHeight;
            style_width := px (Fin lw) |}.
Proof.
  intros Hsize Hlw fitHeight.
  eexists. split; [apply index_resizeCanvas_returns|].
  cbn [Index.size Index.ratio Index.canvas]. rewrite Hsize. cbn [width height].
  rewrite ngt_irrefl. split; [reflexivity|]. split; [|reflexivity].
  rewrite (fdiv_Fin lw lw) by lra.
  assert (E : lw / lw == 1) by (field; lra).
  rewrite (round64_comp _ _ E). reflexivity.
Qed.

(** X19 (the view after construction, index.js).  When it does not wait
    for assets and the logical size is positive, the constructor returns
    an engine with ratio 1 and a CSS width equal to the logical width.
    The CSS height is the floor of the double width / (width / height),
    which is not always the logical height (100 by 127 gives 126).  The
    backing store is the CSS size times the pixel density, rounded.  The
    first tick does not touch any of them. *)
Theorem index_constructor_view
    (getBoundingClientRect : Canvas -> DOMRect)
    (canvas : Canvas) (uc : UserContent) (o : Settings)
    (now1 now2 : number) (clock : TickClock) (lw lh d : Q) :
  uc_options uc = Some o ->
  opt_waitForAssets o <> Some true \/ opt_assets o = None ->
  object_or (opt_size o) {| height := Fin 150; width := Fin 300 |}
    = {| width := Fin lw; height := Fin lh |} ->
  0 < lw -> 0 < lh ->
  exists this tr (fitHeight : number),
    Index.AG2D (Fin d) getBoundingClientRect canvas (Some uc) now1 now2 clock
      = inr (tt, this, tr)
    /\ Index.size this = {| width := Fin lw; height := Fin lh |}
    /\ Index.ratio this = Some (Fin 1)
    /\ fitHeight = Math_floor (fdiv (Fin lw) (fdiv (Fin lw) (Fin lh)))
    /\ style_width (Index.canvas this) = px (Fin lw)
    /\ style_height (Index.canvas this) = px fitHeight
    /\ attr_width (Index.canvas this) = Math_round (fmul (Fin lw) (Fin d))
    /\ attr_height (Index.canvas this) = Math_round (fmul fitHeight (Fin d)).
Proof.
  intros Ho Hnowait Hsize Hlw Hlh. unfold Index.AG2D. cbn [object_or]. rewrite Ho.
  match goal with |- context [Index.init _ _ _ _ ?s] => set (this0 := s) end.
  assert (Hs0 : Index.size this0 = {| width := Fin lw; height := Fin lh |}) by exact Hsize.
  assert (Hw : Index.waitForAssets this0 && bool_decide (is_Some (opt_assets o)) = false).
  { subst this0. cbn [Index.waitForAssets].
    destruct Hnowait as [Hw | Ha].
    - destruct (opt_waitForAssets o) as [[|]|]; cbn; congruence.
    - rewrite Ha. apply andb_false_iff. right. apply bool_decide_eq_false.
      intros [x Hx]. discriminate. }
  destruct (index_fit_own_size getBoundingClientRect this0 lw lh d Hs0 Hlw)
    as (this1 & Efit & Hs1 & Hratio & Hcanvas).
  destruct (index_tick_facts (Fin d) clock this1)
    as (this & tick & Etick & _ & _ & _ & _ & _ & Hview).
  destruct Hview as (Hc & Hr & _ & Hsz & _).
  exists this,
    ([AddEventListener "keydown"; AddEventListener "keyup";
      AddEventListener "resize"; OptionsInit; OptionsDraw] ++ tick),
    (Math_floor (fdiv (Fin lw) (fdiv (Fin lw) (Fin lh)))).
  split.
  - unfold Index.init, Index.loadModules.
    apply (bind_inr _ _ this0 this0 this this0 tt [] _ eq_refl).
    apply (bind_inr _ _ this0 this0 this tt tt [] _ eq_refl).
    rewrite Hw.
    apply (index_setUpCanvas_steps (Fin d) getBoundingClientRect clock this0 this1).
    + rewrite Hs0. exact Efit.
    + exact Etick.
  - rewrite Hsz, Hs1, Hr, Hc, Hcanvas. cbn [style_width style_height attr_width attr_height].
    repeat split; auto.
Qed.

Lemma index_constructor_view_witness :
  exists this tr (fitHeight : number),
    Index.AG2D (Fin 2) Sample.flat_layout Sample.blank_canvas
      (Some (Sample.content
               (Sample.settings None (Some {| width := Fin 100; height := Fin 127 |}))))
      (Fin 7) (Fin 8) (Sample.still 9)
      = inr (tt, this, tr)
    /\ Index.size this = {| width := Fin 100; height := Fin 127 |}
    /\ Index.ratio this = Some (Fin 1)
    /\ fitHeight = Math_floor (fdiv (Fin 100) (fdiv (Fin 100) (Fin 127)))
    /\ style_width (Index.canvas this) = px (Fin 100)
    /\ style_height (Index.canvas this) = px fitHeight
    /\ attr_width (Index.canvas this) = Math_round (fmul (Fin 100) (Fin 2))
    /\ attr_height (Index.canvas this) = Math_round (fmul fitHeight (Fin 2)).
Proof.
  apply (index_constructor_view Sample.flat_layout Sample.blank_canvas
           (Sample.content
              (Sample.settings None (Some {| width := Fin 100; height := Fin 127 |})))
           (Sample.settings None (Some {| width := Fin 100; height := Fin 127 |}))
           (Fin 7) (Fin 8) (Sample.still 9)
           100 127 2).
  - reflexivity.
  - right. reflexivity.
  - reflexivity.
  - reflexivity.
  - reflexivity.
Defined.

(** The constructor of index.js on the logical size 100 by 127, pixel
    density 2: CSS height 126, backing store 200 by 252. *)
Lemma constructor_fits_100_by_127 :
  exists this tr,
    Index.AG2D (Fin 2) Sample.flat_layout Sample.blank_canvas
      (Some (Sample.content
               (Sample.settings None (Some {| width := Fin 100; height := Fin 127 |}))))
      (Fin 7) (Fin 8) (Sample.still 9)
      = inr (tt, this, tr)
    /\ Index.canvas this =
         {| attr_height := Fin 252; attr_width := Fin 200;
            style_height := px (Fin 126); style_width := px (Fin 100) |}.
Proof.
  eexists _, _. split; vm_compute; reflexivity.
Qed.



(** * Scenes *)

Lemma scene_calls_log (ms : list Scene.method) (this : Scene.Scene_state) :
  Scene.calls ms this
    = (this, List.map (fun m => String.append (Scene.label m) (Scene.name this)) ms).
Proof.
  induction ms as [|m rest IH]; [reflexivity|].
  destruct m; cbn; rewrite IH; reflexivity.
Qed.

(** X22 (a scene only logs).  A scene starts with both counters at 0 and
    the name given, or 'Default' when none is; whatever methods are then
    called, in whatever order, [sceneEnter] and [sceneExit] included,
    the counters stay at 0 and the name stays, and each call prints one
    line: its label followed by the name. *)
Theorem scene_counters_never_move (name : option string) (ms : list Scene.method) :
  exists this0 this out,
    Scene.Scene name = (this0, [String.append "Init: " (object_or name "Default"%string)])
    /\ Scene.calls ms this0 = (this, out)
    /\ Scene.name this = object_or name "Default"%string
    /\ Scene.enterCount this = Fin 0
    /\ Scene.exitCount this = Fin 0
    /\ out = List.map (fun m => String.append (Scene.label m)
                                  (object_or name "Default"%string)) ms.
Proof.
  eexists _, _, _. split; [reflexivity|].
  split; [apply scene_calls_log|]. repeat split.
Qed.
